(** * Frame table and directory layer of the Pintos teaching kernel

    A shallow embedding of [vm/frame.c] and [filesys/directory.c].  Kernel calls
    are functions in a state-and-fault monad: a call either returns a value
    together with the new kernel state, or stops the kernel ([Fault]) the way
    [ASSERT] and [PANIC] do. *)

From Stdlib Require Import List Bool Arith Lia String Ascii Permutation.
Import ListNotations.

(** ** Kernel calls: state passing with faults *)

(** Why a call did not return. *)
Inductive fault : Type :=
| AssertionFailed   (* an ASSERT (...) of the source was false *)
| KernelPanic       (* an explicit PANIC (...) of the source *)
| DanglingElem      (* list_remove on an element that is in no list *)
| BadHandle         (* a handle whose object was already released *)
| OutOfFuel.        (* the model's loop bound was reached (shown unreachable) *)

Inductive result (A : Type) : Type :=
| Ok (a : A)
| Fault (f : fault).

Arguments Ok {A} a.
Arguments Fault {A} f.

Definition M (S A : Type) : Type := S -> result (A * S).

Definition ret {S A : Type} (a : A) : M S A := fun s => Ok (a, s).

Definition bind {S A B : Type} (m : M S A) (k : A -> M S B) : M S B :=
  fun s => match m s with
           | Ok (a, s') => k a s'
           | Fault f => Fault f
           end.

Definition raise {S A : Type} (f : fault) : M S A := fun _ => Fault f.

Definition gets {S A : Type} (p : S -> A) : M S A := fun s => Ok (p s, s).

Definition modify {S : Type} (u : S -> S) : M S unit := fun s => Ok (tt, u s).

(** [ASSERT (b)] of <debug.h>: the kernel stops when [b] is false. *)
Definition ASSERT {S : Type} (b : bool) : M S unit :=
  if b then ret tt else raise AssertionFailed.

Declare Scope kernel_scope.
Delimit Scope kernel_scope with kernel.
Notation "x <- m ;; k" := (bind m (fun x => k))
  (at level 61, m at next level, right associativity) : kernel_scope.
Notation "m ;; k" := (bind m (fun _ => k))
  (at level 61, right associativity) : kernel_scope.
Open Scope kernel_scope.

(** ** The frame table ([vm/frame.c]) *)

Module Frame.

(** A frame is identified by the kernel address of its page, which never
    changes after [frame_init]. *)
Definition kaddr := nat.

(** Modelled from the spec: the page layer ([vm/page.c] is not among the
    sources).  It supplies [page_evict (page) -> bool], which writes the page
    back and unmaps it when it can; [false] means the page refuses eviction
    now.  It works on its own state and does not re-enter the frame table. *)
Class PageLayer : Type := {
  vpage : Type;
  pstate : Type;
  page_evict : vpage -> pstate -> bool * pstate
}.

Section FrameTable.
Context {PL : PageLayer}.

(** [struct frame]: the back-reference to the installed page and the pinned
    flag.  The list element [elem] is modelled by the membership of the frame's
    address in the two lists of the table. *)
Record frame : Type := {
  page : option vpage;
  pinned : bool
}.

(** [struct frame_table]: the list of free frames and the list of allocated
    frames, front first. *)
Record frame_table : Type := {
  free_frames : list kaddr;
  allocated_frames : list kaddr
}.

(** The state the file works on: the frames, the static table [ft], whether
    the current thread holds [frame_table_lock], and the page layer's state. *)
Record state : Type := {
  frames : kaddr -> frame;
  ft : frame_table;
  frame_table_lock : bool;
  pages : pstate
}.

Definition set_frame (f : kaddr) (v : frame) (st : state) : state :=
  {| frames := fun g => if Nat.eqb g f then v else frames st g;
     ft := ft st;
     frame_table_lock := frame_table_lock st;
     pages := pages st |}.

Definition set_ft (t : frame_table) (st : state) : state :=
  {| frames := frames st; ft := t;
     frame_table_lock := frame_table_lock st; pages := pages st |}.

Definition set_lock (b : bool) (st : state) : state :=
  {| frames := frames st; ft := ft st;
     frame_table_lock := b; pages := pages st |}.

Definition set_pages (ps : pstate) (st : state) : state :=
  {| frames := frames st; ft := ft st;
     frame_table_lock := frame_table_lock st; pages := ps |}.

(** [frame->page = p] and [frame->pinned = b]. *)
Definition write_page (f : kaddr) (p : option vpage) : M state unit :=
  modify (fun st => set_frame f {| page := p; pinned := pinned (frames st f) |} st).

Definition write_pinned (f : kaddr) (b : bool) : M state unit :=
  modify (fun st => set_frame f {| page := page (frames st f); pinned := b |} st).

(** Modelled from the spec: the lock of [threads/synch.c] as one thread sees
    it.  [lock_acquire] asserts that the thread does not hold the lock yet,
    [lock_release] that it does. *)
Definition lock_held_by_current_thread : M state bool := gets frame_table_lock.

Definition lock_init : M state unit := modify (set_lock false).

Definition lock_acquire : M state unit :=
  h <- lock_held_by_current_thread ;;
  ASSERT (negb h) ;;
  modify (set_lock true).

Definition lock_release : M state unit :=
  h <- lock_held_by_current_thread ;;
  ASSERT h ;;
  modify (set_lock false).

Definition mem (f : kaddr) (l : list kaddr) : bool := existsb (Nat.eqb f) l.

Definition drop (f : kaddr) (l : list kaddr) : list kaddr :=
  filter (fun g => negb (Nat.eqb g f)) l.

(** Modelled from the spec: the intrusive lists of [lib/kernel/list.c].
    [list_remove (&frame->elem)] unlinks the frame from the list it is in; on
    an element that is in no list the source follows stale links, which the
    model reports as [DanglingElem]. *)
Definition list_remove (f : kaddr) : M state unit :=
  t <- gets ft ;;
  if mem f (free_frames t) || mem f (allocated_frames t)
  then modify (set_ft {| free_frames := drop f (free_frames t);
                         allocated_frames := drop f (allocated_frames t) |})
  else raise DanglingElem.

Definition push_back_free (f : kaddr) : M state unit :=
  modify (fun st => set_ft {| free_frames := free_frames (ft st) ++ [f];
                              allocated_frames := allocated_frames (ft st) |} st).

Definition push_back_allocated (f : kaddr) : M state unit :=
  modify (fun st => set_ft {| free_frames := free_frames (ft st);
                              allocated_frames := allocated_frames (ft st) ++ [f] |} st).

(** [list_pop_back (&ft.free_frames)]: asserts that the list is not empty. *)
Definition pop_back_free : M state kaddr :=
  t <- gets ft ;;
  match rev (free_frames t) with
  | [] => raise AssertionFailed
  | f :: _ =>
      modify (set_ft {| free_frames := removelast (free_frames t);
                        allocated_frames := allocated_frames t |}) ;;
      ret f
  end.

(** [frame_free]: frees up FRAME for future use. *)
Definition frame_free (f : kaddr) : M state unit :=
  lock_acquire ;;
  write_page f None ;;
  write_pinned f false ;;
  list_remove f ;;
  push_back_free f ;;
  lock_release.

(** The body of the [while] loop of [frame_init], once per page that
    [palloc_get_page (PAL_USER)] hands out. *)
Fixpoint init_frames (pool : list kaddr) : M state unit :=
  match pool with
  | [] => ret tt
  | upage :: rest =>
      modify (set_frame upage {| page := None; pinned := false |}) ;;
      push_back_free upage ;;
      init_frames rest
  end.

(** [frame_init]; [pool] is the user pool, in the order [palloc_get_page]
    hands its pages out. *)
Definition frame_init (pool : list kaddr) : M state unit :=
  lock_init ;;
  lock_acquire ;;
  modify (set_ft {| free_frames := []; allocated_frames := [] |}) ;;
  init_frames pool ;;
  lock_release.

(** [frame_evict]. *)
Definition frame_evict (f : kaddr) : M state bool :=
  h <- lock_held_by_current_thread ;;
  ASSERT h ;;
  fr <- gets (fun st => frames st f) ;;
  if pinned fr then ret false
  else
    refused <- match page fr with
               | None => ret false
               | Some p =>
                   ps <- gets pages ;;
                   modify (set_pages (snd (page_evict p ps))) ;;
                   ret (negb (fst (page_evict p ps)))
               end ;;
    if (refused : bool) then ret false
    else
      write_page f None ;;
      list_remove f ;;
      ret true.

(** The [for] loop of [frame_pick_and_evict].  A failed [frame_evict] leaves
    the list as it was, so the loop walks the list it started on. *)
Fixpoint evict_scan (l : list kaddr) : M state (option kaddr) :=
  match l with
  | [] => ret None
  | f :: rest =>
      b <- frame_evict f ;;
      if (b : bool) then ret (Some f) else evict_scan rest
  end.

(** [frame_pick_and_evict]. *)
Definition frame_pick_and_evict : M state kaddr :=
  h <- lock_held_by_current_thread ;;
  ASSERT h ;;
  l <- gets (fun st => allocated_frames (ft st)) ;;
  ASSERT (negb (match l with [] => true | _ => false end)) ;;
  r <- evict_scan l ;;
  match r with
  | None => raise KernelPanic
  | Some f => ret f
  end.

(** [frame_alloc]. *)
Definition frame_alloc : M state kaddr :=
  lock_acquire ;;
  l <- gets (fun st => free_frames (ft st)) ;;
  f <- match l with
       | [] => frame_pick_and_evict
       | _ :: _ => pop_back_free
       end ;;
  write_pinned f true ;;
  push_back_allocated f ;;
  lock_release ;;
  ret f.

(** [frame_pin] and [frame_unpin]. *)
Definition frame_pin (f : kaddr) : M state unit :=
  lock_acquire ;;
  write_pinned f true ;;
  lock_release.

Definition frame_unpin (f : kaddr) : M state unit :=
  lock_acquire ;;
  write_pinned f false ;;
  lock_release.

(** Modelled from the spec: the page layer installs a virtual page into a
    frame it obtained from [frame_alloc] by writing the frame's
    back-reference ([frame->page = page] in [vm/page.c], not among the
    sources). *)
Definition page_install (f : kaddr) (p : vpage) : M state unit :=
  write_page f (Some p).

(** *** States and call sequences *)

(** The state before [frame_init]: static storage, no list set up yet. *)
Definition boot (ps : pstate) : state :=
  {| frames := fun _ => {| page := None; pinned := false |};
     ft := {| free_frames := []; allocated_frames := [] |};
     frame_table_lock := false;
     pages := ps |}.

(** The calls a client of the frame table can make between two points of
    rest, [Install] being the page layer's write of the back-reference. *)
Inductive call : Type :=
| Alloc
| Free (f : kaddr)
| Pin (f : kaddr)
| Unpin (f : kaddr)
| Evict (f : kaddr)
| Install (f : kaddr) (p : vpage).

Definition exec (c : call) : M state unit :=
  match c with
  | Alloc => frame_alloc ;; ret tt
  | Free f => frame_free f
  | Pin f => frame_pin f
  | Unpin f => frame_unpin f
  | Evict f => frame_evict f ;; ret tt
  | Install f p => page_install f p
  end.

Fixpoint run (cs : list call) : M state unit :=
  match cs with
  | [] => ret tt
  | c :: rest => exec c ;; run rest
  end.

Definition is_none {A : Type} (o : option A) : bool :=
  match o with None => true | Some _ => false end.


Fixpoint nodupb (l : list kaddr) : bool :=
  match l with
  | [] => true
  | f :: rest => negb (mem f rest) && nodupb rest
  end.

(** What holds of the table between two calls: the lock is not held, no
    frame is linked twice, and the free frames are clean. *)
Definition table_ok (st : state) : bool :=
  negb (frame_table_lock st)
  && nodupb (free_frames (ft st) ++ allocated_frames (ft st))
  && forallb (fun f => is_none (page (frames st f)) && negb (pinned (frames st f)))
             (free_frames (ft st)).

(** The states the kernel reaches: [frame_init] at boot, then calls that
    return.  A frame is pinned, and a page installed, only while the frame is
    allocated; [frame_free] and [frame_unpin] are given frames of the pool. *)
Inductive reachable (pool : list kaddr) : state -> Prop :=
| reach_init ps st :
    nodupb pool = true ->
    frame_init pool (boot ps) = Ok (tt, st) ->
    reachable pool st
| reach_alloc st f st' :
    reachable pool st -> frame_alloc st = Ok (f, st') -> reachable pool st'
| reach_free st f st' :
    reachable pool st -> mem f pool = true ->
    frame_free f st = Ok (tt, st') -> reachable pool st'
| reach_pin st f st' :
    reachable pool st -> mem f (allocated_frames (ft st)) = true ->
    frame_pin f st = Ok (tt, st') -> reachable pool st'
| reach_unpin st f st' :
    reachable pool st -> mem f pool = true ->
    frame_unpin f st = Ok (tt, st') -> reachable pool st'
| reach_evict st f b st' :
    reachable pool st -> frame_evict f st = Ok (b, st') -> reachable pool st'
| reach_install st f p st' :
    reachable pool st -> mem f (allocated_frames (ft st)) = true ->
    page_install f p st = Ok (tt, st') -> reachable pool st'.

(** The eviction scan in the words of the specification: [evict] was
    attempted on each frame of the list in turn, and failed on each. *)
Inductive evict_all_fail : list kaddr -> state -> state -> Prop :=
| eaf_nil st : evict_all_fail [] st st
| eaf_cons f l st st1 st2 :
    frame_evict f st = Ok (false, st1) ->
    evict_all_fail l st1 st2 ->
    evict_all_fail (f :: l) st st2.

(** The state a successful [frame_evict] leaves: the page layer has seen the
    eviction of the installed page, the back-reference is cleared and the
    frame is unlinked. *)
Definition evicted (f : kaddr) (st : state) : state :=
  let ps := match page (frames st f) with
            | None => pages st
            | Some p => snd (page_evict p (pages st))
            end in
  set_ft {| free_frames := drop f (free_frames (ft st));
            allocated_frames := drop f (allocated_frames (ft st)) |}
    (set_frame f {| page := None; pinned := pinned (frames st f) |}
       (set_pages ps st)).

(** The installed page, if there is one, lets itself be evicted. *)
Definition page_gives_way (st : state) (f : kaddr) : bool :=
  match page (frames st f) with
  | None => true
  | Some p => fst (page_evict p (pages st))
  end.

(** The last steps of [frame_alloc] on the frame it chose: pin it, link it
    at the back of the allocated list, release the lock. *)
Definition hand_out (f : kaddr) (st : state) : state :=
  set_lock false
    (set_ft {| free_frames := free_frames (ft st);
               allocated_frames := allocated_frames (ft st) ++ [f] |}
       (set_frame f {| page := page (frames st f); pinned := true |} st)).

(** Every frame built at boot is linked in one of the two lists. *)
Definition covers (pool : list kaddr) (st : state) : Prop :=
  forall f, In f pool <->
            In f (free_frames (ft st) ++ allocated_frames (ft st)).

End FrameTable.

(** A page layer to run the model on: pages are numbers, the state is the
    list of eviction requests seen so far (newest first), and the pages with
    an odd number refuse eviction. *)
Definition demo_pages : PageLayer :=
  {| vpage := nat;
     pstate := list nat;
     page_evict := fun p seen => (Nat.even p, p :: seen) |}.

(** The state after [frame_init] on a pool, or [boot] if it faulted. *)
Definition booted {PL : PageLayer} (pool : list kaddr) (ps : pstate) : state :=
  match frame_init pool (boot ps) with
  | Ok (_, st) => st
  | Fault _ => boot ps
  end.

(** The state a sequence of calls leaves, if it returns. *)
Definition after {PL : PageLayer} (cs : list call) (st : state) : option state :=
  match run cs st with
  | Ok (_, st') => Some st'
  | Fault _ => None
  end.

(** States to try the calls on.  Two frames; after the calls of
    [demo_calls] the first is still free and the second is allocated,
    unpinned and holding page 4. *)
Definition demo_calls : list (@call demo_pages) :=
  [Alloc; @Install demo_pages 2 4; Unpin 2].

Definition demo_after (n : nat) : @state demo_pages :=
  match after (firstn n demo_calls) (@booted demo_pages [1; 2] []) with
  | Some st => st
  | None => @boot demo_pages []
  end.

Definition demo_state : @state demo_pages := demo_after 3.

(** The same with the lock taken, as [frame_alloc] holds it during the scan. *)
Definition demo_locked : @state demo_pages := set_lock true demo_state.

(** Both frames of the pool handed out and still pinned. *)
Definition demo_full : @state demo_pages :=
  match @after demo_pages [Alloc; Alloc] (@booted demo_pages [1; 2] []) with
  | Some st => st
  | None => @boot demo_pages []
  end.

End Frame.

(** ** The directory layer ([filesys/directory.c]) *)

Module Directory.

Definition block_sector_t := nat.

(** The constants of headers that are not among the sources: [NAME_MAX] of
    [filesys/directory.h] and [ROOT_DIR_SECTOR] of [filesys/filesys.h]. *)
Class Params : Type := {
  NAME_MAX : nat;
  ROOT_DIR_SECTOR : block_sector_t
}.

(** [struct dir_entry].  A name is the C string held in the [name] array. *)
Record dir_entry : Type := {
  inode_sector : block_sector_t;
  name : string;
  in_use : bool
}.

(** [struct inode *]: there is one in-memory inode per sector, so the pointer
    is modelled by the sector; a null pointer is [None]. *)
Definition inode_ptr := block_sector_t.

(** [struct dir].  Its [lock] field is always [inode_dir_lock (inode)] and is
    computed where the source reads it.  [pos] counts entries: the byte
    offsets of the source are all multiples of [sizeof (struct dir_entry)]. *)
Record dir : Type := {
  inode : inode_ptr;
  pos : nat
}.

(** What is stored at a sector that holds an inode: whether it is a
    directory, and for a directory its array of entries. *)
Record disk_inode : Type := {
  is_directory : bool;
  slots : list dir_entry
}.

(** One [inode_read_at] or [inode_write_at] of a directory entry, with
    whether the thread held the inode's lock at that moment. *)
Record access : Type := {
  acc_write : bool;
  acc_inode : inode_ptr;
  acc_slot : nat;
  acc_locked : bool
}.

(** The state the directory layer works on. *)
Record fs : Type := {
  disk : block_sector_t -> disk_inode;   (* the inodes on the device *)
  open_cnt : inode_ptr -> nat;           (* open count of each inode, 0 = closed *)
  removed : inode_ptr -> bool;           (* marked for deletion *)
  room : nat;                            (* entries the device can still take *)
  held : list inode_ptr;                 (* directory locks the thread holds *)
  cwd : dir;                             (* thread_current ()->cwd *)
  log : list access                      (* entry accesses so far, oldest first *)
}.

Definition upd {A : Type} (f : nat -> A) (k : nat) (v : A) : nat -> A :=
  fun x => if Nat.eqb x k then v else f x.

Definition set_disk (v : block_sector_t -> disk_inode) (st : fs) : fs :=
  {| disk := v; open_cnt := open_cnt st; removed := removed st; room := room st;
     held := held st; cwd := cwd st; log := log st |}.

Definition set_open_cnt (v : inode_ptr -> nat) (st : fs) : fs :=
  {| disk := disk st; open_cnt := v; removed := removed st; room := room st;
     held := held st; cwd := cwd st; log := log st |}.

Definition set_removed (v : inode_ptr -> bool) (st : fs) : fs :=
  {| disk := disk st; open_cnt := open_cnt st; removed := v; room := room st;
     held := held st; cwd := cwd st; log := log st |}.

Definition set_room (v : nat) (st : fs) : fs :=
  {| disk := disk st; open_cnt := open_cnt st; removed := removed st; room := v;
     held := held st; cwd := cwd st; log := log st |}.

Definition set_held (v : list inode_ptr) (st : fs) : fs :=
  {| disk := disk st; open_cnt := open_cnt st; removed := removed st; room := room st;
     held := v; cwd := cwd st; log := log st |}.

Definition set_log (v : list access) (st : fs) : fs :=
  {| disk := disk st; open_cnt := open_cnt st; removed := removed st; room := room st;
     held := held st; cwd := cwd st; log := v |}.

Definition holds (l : inode_ptr) (st : fs) : bool := existsb (Nat.eqb l) (held st).

(** *** The C library on strings *)

Definition is_empty (s : string) : bool :=
  match s with EmptyString => true | String _ _ => false end.

(** [s + 1] for a pointer [s] to a character that is not the terminator. *)
Definition tail (s : string) : string :=
  match s with EmptyString => EmptyString | String _ r => r end.

(** [strchr (s, c)] for [c] other than the terminator: the suffix of [s] that
    starts at the first [c], or [None] for a null pointer. *)
Fixpoint strchr (s : string) (c : ascii) : option string :=
  match s with
  | EmptyString => None
  | String a r => if Ascii.eqb a c then Some s else strchr r c
  end.

(** [strrchr (s, c)] for [c] other than the terminator: the suffix of [s] that
    starts at the last [c], or [None] for a null pointer. *)
Fixpoint strrchr (s : string) (c : ascii) : option string :=
  match s with
  | EmptyString => None
  | String a r =>
      match strrchr r c with
      | Some t => Some t
      | None => if Ascii.eqb a c then Some s else None
      end
  end.

(** [strlcpy (dst, src, size)]: [dst] receives at most [size - 1] characters
    of [src]. *)
Definition strlcpy (src : string) (size : nat) : string :=
  substring 0 (size - 1) src.

(** [strcmp (a, b) == 0]. *)
Definition streq (a b : string) : bool := String.eqb a b.

(** [s[0] == '/']. *)
Definition starts_with_slash (s : string) : bool :=
  match s with
  | String a _ => Ascii.eqb a "/"%char
  | EmptyString => false
  end.

(** *** The inode layer and the locks *)

(** Modelled from the spec: the locks of [threads/synch.c] as one thread sees
    them, one lock per inode.  [lock_acquire] asserts that the thread does not
    hold the lock yet, [lock_release] that it does. *)
Definition lock_held_by_current_thread (l : inode_ptr) : M fs bool :=
  gets (holds l).

Definition lock_acquire (l : inode_ptr) : M fs unit :=
  h <- lock_held_by_current_thread l ;;
  ASSERT (negb h) ;;
  modify (fun st => set_held (l :: held st) st).

Definition lock_release (l : inode_ptr) : M fs unit :=
  h <- lock_held_by_current_thread l ;;
  ASSERT h ;;
  modify (fun st => set_held (filter (fun x => negb (Nat.eqb x l)) (held st)) st).

(** Modelled from the spec: the inode layer ([filesys/inode.c] is not among
    the sources), the interface of section 6 of the specification.  An inode
    is opened by sector; every open or reopen raises its open count, every
    close lowers it, and the close of the last handle of an inode marked for
    deletion releases what it stored.  Kernel memory is not modelled as a
    resource: [inode_open] and [calloc] return an object. *)
Definition inode_dir_lock (i : inode_ptr) : inode_ptr := i.

Definition inode_open (sector : block_sector_t) : M fs (option inode_ptr) :=
  modify (fun st =>
            set_open_cnt (upd (open_cnt st) sector (S (open_cnt st sector)))
              (if Nat.eqb (open_cnt st sector) 0
               then set_removed (upd (removed st) sector false) st
               else st)) ;;
  ret (Some sector).

Definition inode_reopen (i : option inode_ptr) : M fs (option inode_ptr) :=
  match i with
  | None => ret None
  | Some s =>
      modify (fun st => set_open_cnt (upd (open_cnt st) s (S (open_cnt st s))) st) ;;
      ret (Some s)
  end.

(** What a sector holds once its inode has been released. *)
Definition no_inode : disk_inode := {| is_directory := false; slots := [] |}.

Definition inode_close (i : option inode_ptr) : M fs unit :=
  match i with
  | None => ret tt
  | Some s =>
      c <- gets (fun st => open_cnt st s) ;;
      match c with
      | 0 => raise BadHandle
      | S c' =>
          modify (fun st => set_open_cnt (upd (open_cnt st) s c') st) ;;
          gone <- gets (fun st => removed st s) ;;
          if Nat.eqb c' 0 && gone
          then modify (fun st =>
                         set_room (room st + List.length (slots (disk st s)))
                           (set_disk (upd (disk st) s no_inode) st))
          else ret tt
      end
  end.

Definition inode_isdir (i : inode_ptr) : M fs bool :=
  gets (fun st => is_directory (disk st i)).

Definition inode_open_count (i : inode_ptr) : M fs nat :=
  gets (fun st => open_cnt st i).

Definition inode_remove (i : inode_ptr) : M fs unit :=
  modify (fun st => set_removed (upd (removed st) i true) st).

Definition note (w : bool) (i : inode_ptr) (ofs : nat) : M fs unit :=
  modify (fun st =>
            set_log (log st ++ [{| acc_write := w; acc_inode := i; acc_slot := ofs;
                                   acc_locked := holds (inode_dir_lock i) st |}]) st).

(** [inode_read_at (inode, &e, sizeof e, ofs) == sizeof e], with the entry
    read: [None] is the short read at the end of the file. *)
Definition inode_read_at (i : inode_ptr) (ofs : nat) : M fs (option dir_entry) :=
  note false i ofs ;;
  gets (fun st => nth_error (slots (disk st i)) ofs).

(** The entry that a zero-filled stretch of a file reads as. *)
Definition blank : dir_entry :=
  {| inode_sector := 0; name := ""%string; in_use := false |}.

Fixpoint store (es : list dir_entry) (ofs : nat) (e : dir_entry) : list dir_entry :=
  match ofs, es with
  | 0, [] => [e]
  | 0, _ :: r => e :: r
  | S n, [] => blank :: store [] n e
  | S n, x :: r => x :: store r n e
  end.

(** [inode_write_at (inode, &e, sizeof e, ofs) == sizeof e].  A write inside
    the file always commits; a write that extends the file commits when the
    device has room for the entries it adds. *)
Definition inode_write_at (i : inode_ptr) (e : dir_entry) (ofs : nat) : M fs bool :=
  note true i ofs ;;
  es <- gets (fun st => slots (disk st i)) ;;
  r <- gets room ;;
  let grow := S ofs - List.length es in
  if grow <=? r
  then
    modify (fun st =>
              set_room (r - grow)
                (set_disk (upd (disk st) i
                             {| is_directory := is_directory (disk st i);
                                slots := store es ofs e |}) st)) ;;
    ret true
  else ret false.

(** *** The directory operations *)

Section Operations.
Context {P : Params}.

(** [dir->lock]. *)
Definition dir_lock (d : dir) : inode_ptr := inode_dir_lock (inode d).

(** [dir_open]. *)
Definition dir_open (i : option inode_ptr) : M fs (option dir) :=
  match i with
  | Some s =>
      isd <- inode_isdir s ;;
      if (isd : bool)
      then ret (Some {| inode := s; pos := 2 |})   (* skip . and .. *)
      else inode_close (Some s) ;; ret None
  | None => inode_close None ;; ret None
  end.

(** [dir_open_root], [dir_reopen] and [dir_close]. *)
Definition dir_open_root : M fs (option dir) :=
  i <- inode_open ROOT_DIR_SECTOR ;;
  dir_open i.

Definition dir_reopen (d : dir) : M fs (option dir) :=
  i <- inode_reopen (Some (inode d)) ;;
  dir_open i.

Definition dir_close (d : option dir) : M fs unit :=
  match d with
  | Some d' => inode_close (Some (inode d'))
  | None => ret tt
  end.

(** [dir_get_inode]. *)
Definition dir_get_inode (d : dir) : inode_ptr := inode d.

(** The loop that [lookup], [dir_add], [dir_empty] and [dir_readdir] share:
    [for (...; inode_read_at (inode, &e, sizeof e, ofs) == sizeof e;
    ofs += sizeof e) if (stop (e)) break;].  It returns the entry it stopped
    at, or [None] after the short read that ends the file, with the offset it
    reached.  [fuel] bounds the number of turns. *)
Fixpoint scan (fuel : nat) (i : inode_ptr) (stop : dir_entry -> bool) (ofs : nat)
  : M fs (option dir_entry * nat) :=
  match fuel with
  | 0 => raise OutOfFuel
  | S fuel' =>
      r <- inode_read_at i ofs ;;
      match r with
      | None => ret (None, ofs)
      | Some e =>
          if stop e then ret (Some e, ofs) else scan fuel' i stop (S ofs)
      end
  end.

(** The loop run with a turn for every entry of the file and one for the
    short read. *)
Definition scan_entries (i : inode_ptr) (stop : dir_entry -> bool) (ofs : nat)
  : M fs (option dir_entry * nat) :=
  n <- gets (fun st => List.length (slots (disk st i))) ;;
  scan (S n) i stop ofs.

(** [lookup]: the entry found and its offset, or [None] for [false]. *)
Definition lookup (d : dir) (nm : string) : M fs (option (dir_entry * nat)) :=
  r <- scan_entries (inode d) (fun e => in_use e && streq nm (name e)) 0 ;;
  match r with
  | (Some e, ofs) => ret (Some (e, ofs))
  | (None, _) => ret None
  end.

(** [dir_lookup]: the value left in [*inode]; the call returns true when it
    is not null. *)
Definition dir_lookup (d : dir) (nm : string) : M fs (option inode_ptr) :=
  r <- lookup d nm ;;
  match r with
  | Some (e, _) => inode_open (inode_sector e)
  | None => ret None
  end.

(** [dir_parse_filename]: the pointer into [filepath] it returns is the
    suffix of [filepath] that starts there. *)
Definition dir_parse_filename (filepath : string) : string :=
  match strrchr filepath "/" with
  | None => filepath
  | Some filename => tail filename
  end.

(** The [done:] exit of [dir_add] and [dir_remove]. *)
Definition unlock_if_held (l : inode_ptr) : M fs unit :=
  h <- lock_held_by_current_thread l ;;
  if (h : bool) then lock_release l else ret tt.

(** [dir_add]. *)
Definition dir_add (d : dir) (nm : string) (sector : block_sector_t) : M fs bool :=
  if is_empty nm || (NAME_MAX <? String.length nm)
  then ret false
  else
    lock_acquire (dir_lock d) ;;
    found <- lookup d nm ;;
    success <- match found with
               | Some _ => ret false
               | None =>
                   r <- scan_entries (inode d) (fun e => negb (in_use e)) 0 ;;
                   inode_write_at (inode d)
                     {| inode_sector := sector;
                        name := strlcpy nm (NAME_MAX + 1);
                        in_use := true |}
                     (snd r)
               end ;;
    unlock_if_held (dir_lock d) ;;
    ret success.

(** [dir_empty]. *)
Definition dir_empty (d : dir) : M fs bool :=
  lock_acquire (dir_lock d) ;;
  r <- scan_entries (inode d)
         (fun e => in_use e && negb (streq "." (name e)) && negb (streq ".." (name e)))
         0 ;;
  lock_release (dir_lock d) ;;
  ret (match fst r with Some _ => false | None => true end).

(** The [done:] exit of [dir_remove]. *)
Definition dir_remove_done (d : dir) (dir_removed : option dir)
    (i : option inode_ptr) (success : bool) : M fs bool :=
  unlock_if_held (dir_lock d) ;;
  match dir_removed with
  | Some _ => dir_close dir_removed
  | None => match i with
            | Some _ => inode_close i
            | None => ret tt
            end
  end ;;
  ret success.

(** [e.in_use = false]. *)
Definition erased (e : dir_entry) : dir_entry :=
  {| inode_sector := inode_sector e; name := name e; in_use := false |}.

(** The end of [dir_remove], from "Erase directory entry". *)
Definition dir_remove_erase (d : dir) (e : dir_entry) (ofs : nat)
    (dir_removed : option dir) (i : inode_ptr) : M fs bool :=
  w <- inode_write_at (inode d) (erased e) ofs ;;
  if (w : bool)
  then inode_remove i ;; dir_remove_done d dir_removed (Some i) true
  else dir_remove_done d dir_removed (Some i) false.

(** [dir_remove]. *)
Definition dir_remove (d : dir) (nm : string) : M fs bool :=
  lock_acquire (dir_lock d) ;;
  found <- lookup d nm ;;
  match found with
  | None => dir_remove_done d None None false
  | Some (e, ofs) =>
      opened <- inode_open (inode_sector e) ;;
      match opened with
      | None => dir_remove_done d None None false
      | Some i =>
          isd <- inode_isdir i ;;
          if (isd : bool)
          then
            dir_removed <- dir_open (Some i) ;;
            match dir_removed with
            | None => dir_remove_done d None (Some i) false
            | Some dr =>
                c <- inode_open_count i ;;
                if 1 <? c
                then dir_remove_done d dir_removed (Some i) false
                else
                  empty <- dir_empty dr ;;
                  if (empty : bool)
                  then dir_remove_erase d e ofs dir_removed i
                  else dir_remove_done d dir_removed (Some i) false
            end
          else dir_remove_erase d e ofs None i
      end
  end.

(** [dir_readdir]: the name stored, or [None] for [false], and the
    directory with its position advanced. *)
Definition dir_readdir (d : dir) : M fs (option string * dir) :=
  lock_acquire (dir_lock d) ;;
  r <- scan_entries (inode d) in_use (pos d) ;;
  lock_release (dir_lock d) ;;
  match r with
  | (Some e, ofs) =>
      ret (Some (strlcpy (name e) (NAME_MAX + 1)), {| inode := inode d; pos := S ofs |})
  | (None, ofs) => ret (None, {| inode := inode d; pos := ofs |})
  end.

(** The [fail:] exit of [dir_open_dirs]. *)
Definition open_dirs_fail (parent_dir : option dir) : M fs (option dir) :=
  match parent_dir with
  | Some d => unlock_if_held (dir_lock d)
  | None => ret tt
  end ;;
  dir_close parent_dir ;;
  ret None.

(** The loop body of [dir_open_dirs] for a component of [curr_name_len]
    characters at the front of [filepath], from the check of its length to
    [parent_dir = dir_open (curr_inode)]: the new parent, or [None] when the
    function left through [fail:]. *)
Definition descend (parent_dir : dir) (filepath : string) (curr_name_len : nat)
  : M fs (option dir) :=
  if NAME_MAX <? curr_name_len
  then open_dirs_fail (Some parent_dir)
  else
    let curr_name := strlcpy filepath (curr_name_len + 1) in
    lock_acquire (dir_lock parent_dir) ;;
    curr_inode <- dir_lookup parent_dir curr_name ;;
    match curr_inode with
    | None => open_dirs_fail (Some parent_dir)
    | Some _ =>
        lock_release (dir_lock parent_dir) ;;
        dir_close (Some parent_dir) ;;
        next <- dir_open curr_inode ;;
        match next with
        | None => open_dirs_fail None
        | Some _ => ret next
        end
    end.

(** The [while] loop of [dir_open_dirs]; [fuel] bounds the number of turns. *)
Fixpoint traverse (fuel : nat) (parent_dir : dir) (filepath : string)
  : M fs (option dir) :=
  match fuel with
  | 0 => raise OutOfFuel
  | S fuel' =>
      match strchr filepath "/" with
      | None => ret (Some parent_dir)
      | Some next_slash =>
          if is_empty (tail next_slash)
          then open_dirs_fail (Some parent_dir)
          else if String.length next_slash =? String.length filepath
          then traverse fuel' parent_dir (tail filepath)
          else
            next <- descend parent_dir filepath
                      (String.length filepath - String.length next_slash) ;;
            match next with
            | None => ret None
            | Some d => traverse fuel' d (tail next_slash)
            end
      end
  end.

(** [dir_open_dirs]: every turn of the loop moves [filepath] forward, so one
    turn per character and one more are enough. *)
Definition dir_open_dirs (filepath : string) : M fs (option dir) :=
  start <- (if starts_with_slash filepath
            then dir_open_root
            else c <- gets cwd ;; dir_reopen c) ;;
  let rest := if starts_with_slash filepath then tail filepath else filepath in
  match start with
  | None => open_dirs_fail None
  | Some parent_dir => traverse (S (String.length rest)) parent_dir rest
  end.

(** Where [dir_open_dirs] starts from: the root or the working directory,
    opened afresh. *)
Definition start_dir (filepath : string) : M fs (option dir) :=
  if starts_with_slash filepath
  then dir_open_root
  else c <- gets cwd ;; dir_reopen c.

End Operations.

(** *** What the loops compute *)

Definition is_none' {A : Type} (o : option A) : bool :=
  match o with None => true | Some _ => false end.

(** The entry and offset the shared loop stops at, on the entries from
    [ofs] on. *)
Fixpoint find_slot (stop : dir_entry -> bool) (es : list dir_entry) (ofs : nat)
  : option dir_entry * nat :=
  match es with
  | [] => (None, ofs)
  | e :: r => if stop e then (Some e, ofs) else find_slot stop r (S ofs)
  end.

(** The reads the shared loop makes on the way. *)
Fixpoint scan_log (i : inode_ptr) (locked : bool) (stop : dir_entry -> bool)
    (es : list dir_entry) (ofs : nat) : list access :=
  {| acc_write := false; acc_inode := i; acc_slot := ofs; acc_locked := locked |} ::
  match es with
  | [] => []
  | e :: r => if stop e then [] else scan_log i locked stop r (S ofs)
  end.

Definition logged (new : list access) (st : fs) : fs :=
  set_log (log st ++ new) st.

(** The first entry in use under a name, with its offset. *)
Definition named (nm : string) (e : dir_entry) : bool :=
  in_use e && streq nm (name e).

Definition found (nm : string) (es : list dir_entry) : option (dir_entry * nat) :=
  match find_slot (named nm) es 0 with
  | (Some e, ofs) => Some (e, ofs)
  | (None, _) => None
  end.

(** A call that took and gave back its locks, and touched entries only
    under the lock of their inode. *)
Definition well_locked (st st' : fs) : Prop :=
  held st' = [] /\
  exists new, log st' = log st ++ new /\ forallb acc_locked new = true.

(** The specification's words for an empty directory: no entry in use other
    than those named [.] and [..]. *)
Definition only_dots (es : list dir_entry) : bool :=
  forallb (fun e => negb (in_use e) || streq "." (name e) || streq ".." (name e)) es.

(** The state [inode_open] leaves, and the state [inode_close] leaves on a
    handle that is open. *)
Definition opened (s : block_sector_t) (st : fs) : fs :=
  set_open_cnt (upd (open_cnt st) s (S (open_cnt st s)))
    (if Nat.eqb (open_cnt st s) 0
     then set_removed (upd (removed st) s false) st
     else st).

Definition closed (s : inode_ptr) (st : fs) : fs :=
  let st1 := set_open_cnt (upd (open_cnt st) s (open_cnt st s - 1)) st in
  if Nat.eqb (open_cnt st s - 1) 0 && removed st s
  then set_room (room st + List.length (slots (disk st s)))
         (set_disk (upd (disk st) s no_inode) st1)
  else st1.

(** The state an [inode_write_at] inside the file leaves (the log apart). *)
Definition written (i : inode_ptr) (ofs : nat) (e : dir_entry) (st : fs) : fs :=
  set_room (room st - (S ofs - List.length (slots (disk st i))))
    (set_disk (upd (disk st) i
                 {| is_directory := is_directory (disk st i);
                    slots := store (slots (disk st i)) ofs e |}) st).

(** A handle a caller may pass: open, and on an inode that is a directory
    ([dir_open] hands out no other). *)
Definition valid_dir (st : fs) (d : dir) : bool :=
  (1 <=? open_cnt st (inode d)) && is_directory (disk st (inode d)).

(** Nothing was committed between two states: the device, the open counts
    and the room are as before, and no inode was newly marked for deletion. *)
Definition nothing_committed (st st' : fs) : Prop :=
  (forall x, disk st' x = disk st x) /\
  (forall x, open_cnt st' x = open_cnt st x) /\
  (forall x, removed st' x = true -> removed st x = true) /\
  room st' = room st.

(** Every access of a list was made under the lock of its inode. *)
Definition all_locked (l : list access) : bool := forallb acc_locked l.

(** What [dir_lookup] leaves in [*inode] for a name. *)
Definition target (nm : string) (es : list dir_entry) : option inode_ptr :=
  match found nm es with
  | Some (e, _) => Some (inode_sector e)
  | None => None
  end.

(** The first offset [dir_add] can write at: the first entry not in use, or
    the end of the file. *)
Definition free_slot (es : list dir_entry) : nat :=
  snd (find_slot (fun e => negb (in_use e)) es 0).

(** A name with no slash in it. *)
Definition slash_free (p : string) : bool := is_none' (strchr p "/").

(** [p1/p2/.../pn/]: components, each followed by a slash. *)
Fixpoint join (comps : list string) : string :=
  match comps with
  | [] => EmptyString
  | p :: rest => String.append p (String "/" (join rest))
  end.

(** No two entries in use carry the same name. *)
Definition unique_names (es : list dir_entry) : Prop :=
  forall i j e1 e2,
    nth_error es i = Some e1 -> nth_error es j = Some e2 ->
    in_use e1 = true -> in_use e2 = true -> name e1 = name e2 -> i = j.

(** The names [dir_readdir] has still to report from position [p] on: those
    of the entries in use, in the order of their slots. *)
Definition listing {P : Params} (p : nat) (es : list dir_entry) : list string :=
  map (fun e => strlcpy (name e) (NAME_MAX + 1)) (filter in_use (skipn p es)).

(** The handle a call hands to its caller: one on the inode of the
    directory it returns. *)
Definition handle_on (r : option dir) (x : inode_ptr) : nat :=
  match r with
  | Some d => if Nat.eqb x (inode d) then 1 else 0
  | None => 0
  end.

(** *** A small file system to run the operations on *)

(** The constants as Pintos has them. *)
Definition pintos : Params := {| NAME_MAX := 14; ROOT_DIR_SECTOR := 1 |}.

Definition entry (s : block_sector_t) (nm : string) : dir_entry :=
  {| inode_sector := s; name := nm; in_use := true |}.

(** The root directory at sector 1 holds the directory [a] (sector 5) and
    the file [f] (sector 9); [a] holds the empty directory [b] (sector 6). *)
Definition demo_disk (s : block_sector_t) : disk_inode :=
  match s with
  | 1 => {| is_directory := true;
            slots := [entry 1 "."; entry 1 ".."; entry 5 "a"; entry 9 "f"] |}
  | 5 => {| is_directory := true;
            slots := [entry 5 "."; entry 1 ".."; entry 6 "b"] |}
  | 6 => {| is_directory := true; slots := [entry 6 "."; entry 5 ".."] |}
  | 9 => {| is_directory := false; slots := [] |}
  | _ => no_inode
  end.

Definition root_dir : dir := {| inode := 1; pos := 2 |}.

(** The root is open once (the thread's working directory), the file [f]
    twice; the device has room for three more entries. *)
Definition demo_fs : fs :=
  {| disk := demo_disk;
     open_cnt := fun s => match s with 1 => 1 | 9 => 2 | _ => 0 end;
     removed := fun _ => false;
     room := 3;
     held := [];
     cwd := root_dir;
     log := [] |}.

(** The state a call leaves, or the state it started from if it faulted. *)
Definition state_after {A : Type} (m : M fs A) (st : fs) : fs :=
  match m st with
  | Ok (_, st') => st'
  | Fault _ => st
  end.

(** The small file system after [dir_add (root, "x", 42)]. *)
Definition demo_added : fs :=
  state_after (@dir_add pintos root_dir "x" 42) demo_fs.

(** A component one character longer than [NAME_MAX] allows. *)
Definition long_name : string := "aaaaaaaaaaaaaaa".

(** The small file system after the [dir_lookup (root, "x")] that follows
    the add. *)
Definition demo_looked : fs := state_after (dir_lookup root_dir "x") demo_added.

(** The small file system with the directory [a] opened once, and the
    handle on it. *)
Definition a_dir : dir := {| inode := 5; pos := 2 |}.

Definition demo_fs_a : fs := set_open_cnt (upd (open_cnt demo_fs) 5 1) demo_fs.

(** The small file system after [dir_remove (root, "f")], and after the
    [dir_add (root, "x", 42)] that follows it. *)
Definition demo_removed : fs := state_after (dir_remove root_dir "f") demo_fs.

Definition demo_readded : fs :=
  state_after (@dir_add pintos root_dir "x" 42) demo_removed.

End Directory.

(** ** Properties of the frame table *)

Module FrameProofs.
Import Frame.

Ltac run_monad :=
  unfold bind, ret, gets, modify, raise, ASSERT in *; cbn in *.

Section WithPageLayer.
Context {PL : PageLayer}.

Lemma mem_In (f : kaddr) (l : list kaddr) : mem f l = true <-> In f l.
Proof.
  unfold mem. rewrite existsb_exists. split.
  - intros (g & Hg & E). apply Nat.eqb_eq in E. now subst.
  - intros H. exists f. split; [assumption | apply Nat.eqb_refl].
Qed.

Lemma mem_false (f : kaddr) (l : list kaddr) : mem f l = false <-> ~ In f l.
Proof.
  rewrite <- mem_In. destruct (mem f l); split; congruence.
Qed.

Lemma mem_app (f : kaddr) (l1 l2 : list kaddr) :
  mem f (l1 ++ l2) = mem f l1 || mem f l2.
Proof. unfold mem. apply existsb_app. Qed.

Lemma nodupb_NoDup (l : list kaddr) : nodupb l = true <-> NoDup l.
Proof.
  induction l as [|f l IH]; cbn.
  - split; [constructor | reflexivity].
  - rewrite andb_true_iff, negb_true_iff, mem_false, IH. split.
    + intros [H1 H2]. now constructor.
    + intros H. inversion H. now split.
Qed.

Lemma In_drop (f g : kaddr) (l : list kaddr) :
  In g (drop f l) <-> In g l /\ g <> f.
Proof.
  unfold drop. rewrite filter_In, negb_true_iff, Nat.eqb_neq. reflexivity.
Qed.

Lemma drop_absent (f : kaddr) (l : list kaddr) : ~ In f l -> drop f l = l.
Proof.
  induction l as [|g l IH]; cbn; intros H; [reflexivity|].
  destruct (Nat.eqb_spec g f) as [->|_]; cbn.
  - exfalso. apply H. now left.
  - f_equal. apply IH. intros HI. apply H. now right.
Qed.

Lemma drop_app (f : kaddr) (l1 l2 : list kaddr) :
  drop f (l1 ++ l2) = drop f l1 ++ drop f l2.
Proof. unfold drop. apply filter_app. Qed.

Lemma drop_middle (f : kaddr) (l1 l2 : list kaddr) :
  NoDup (l1 ++ f :: l2) -> drop f (l1 ++ f :: l2) = l1 ++ l2.
Proof.
  intros H. apply NoDup_remove_2 in H.
  assert (E : drop f (f :: l2) = drop f l2).
  { unfold drop. cbn. now rewrite Nat.eqb_refl. }
  rewrite drop_app, E.
  rewrite !drop_absent; [reflexivity | |]; intros HI; apply H, in_or_app; auto.
Qed.

Lemma NoDup_drop (f : kaddr) (l : list kaddr) : NoDup l -> NoDup (drop f l).
Proof. unfold drop. apply NoDup_filter. Qed.

Lemma removelast_snoc (l : list kaddr) (f : kaddr) : removelast (l ++ [f]) = l.
Proof. apply removelast_last. Qed.

(** [table_ok] read as propositions. *)
Lemma table_ok_iff (st : state) :
  table_ok st = true <->
  frame_table_lock st = false /\
  NoDup (free_frames (ft st) ++ allocated_frames (ft st)) /\
  (forall f, In f (free_frames (ft st)) ->
             page (frames st f) = None /\ pinned (frames st f) = false).
Proof.
  unfold table_ok.
  rewrite !andb_true_iff, negb_true_iff, nodupb_NoDup, forallb_forall.
  split; [intros [[H1 H2] H3] | intros [H1 [H2 H3]]]; repeat split; auto.
  - apply H3 in H. apply andb_true_iff in H. destruct H as [H _].
    destruct (page (frames st f)); [discriminate | reflexivity].
  - apply H3 in H. apply andb_true_iff in H. destruct H as [_ H].
    now apply negb_true_iff in H.
  - intros f Hf. destruct (H3 f Hf) as [-> ->]. reflexivity.
Qed.

(** *** [frame_evict] case by case *)

Lemma frame_evict_unlocked (st : state) (f : kaddr) :
  frame_table_lock st = false -> frame_evict f st = Fault AssertionFailed.
Proof.
  intros Hl. unfold frame_evict, lock_held_by_current_thread. run_monad.
  now rewrite Hl.
Qed.

Lemma frame_evict_pinned (st : state) (f : kaddr) :
  frame_table_lock st = true -> pinned (frames st f) = true ->
  frame_evict f st = Ok (false, st).
Proof.
  intros Hl Hp. unfold frame_evict, lock_held_by_current_thread. run_monad.
  rewrite Hl. cbn. now rewrite Hp.
Qed.

Lemma frame_evict_refused (st : state) (f : kaddr) (p : vpage) :
  frame_table_lock st = true -> pinned (frames st f) = false ->
  page (frames st f) = Some p -> fst (page_evict p (pages st)) = false ->
  frame_evict f st = Ok (false, set_pages (snd (page_evict p (pages st))) st).
Proof.
  intros Hl Hp Hpg Hr. unfold frame_evict, lock_held_by_current_thread. run_monad.
  rewrite Hl. cbn. rewrite Hp, Hpg. cbn. now rewrite Hr.
Qed.

Lemma frame_evict_success (st : state) (f : kaddr) :
  frame_table_lock st = true -> pinned (frames st f) = false ->
  page_gives_way st f = true ->
  mem f (free_frames (ft st)) || mem f (allocated_frames (ft st)) = true ->
  frame_evict f st = Ok (true, evicted f st).
Proof.
  intros Hl Hp Hg Hm. unfold frame_evict, lock_held_by_current_thread, list_remove,
    write_page, page_gives_way, evicted in *. run_monad.
  rewrite Hl. cbn. rewrite Hp.
  destruct (page (frames st f)) as [p|]; cbn.
  - rewrite Hg. cbn. rewrite Hm. cbn. now rewrite ?Hp.
  - rewrite Hm. cbn. now rewrite ?Hp.
Qed.

(** Every outcome of [frame_evict] under the lock is one of the three. *)
Lemma frame_evict_cases (st : state) (f : kaddr) :
  frame_table_lock st = true ->
  mem f (free_frames (ft st)) || mem f (allocated_frames (ft st)) = true ->
  (exists ps, frame_evict f st = Ok (false, set_pages ps st)) \/
  (pinned (frames st f) = false /\ page_gives_way st f = true /\
   frame_evict f st = Ok (true, evicted f st)).
Proof.
  intros Hl Hm.
  destruct (pinned (frames st f)) eqn:Hp.
  - left. exists (pages st). rewrite frame_evict_pinned by assumption.
    destruct st; reflexivity.
  - destruct (page_gives_way st f) eqn:Hg.
    + right. repeat split. now apply frame_evict_success.
    + left. unfold page_gives_way in Hg.
      destruct (page (frames st f)) as [p|] eqn:Hpg; [|discriminate].
      eexists. now apply frame_evict_refused with (p := p).
Qed.

Lemma frame_evict_false_inv (st st' : state) (f : kaddr) :
  frame_evict f st = Ok (false, st') -> exists ps, st' = set_pages ps st.
Proof.
  unfold frame_evict, lock_held_by_current_thread, list_remove, write_page. run_monad.
  destruct (frame_table_lock st); cbn; [|discriminate].
  destruct (pinned (frames st f)).
  - intros H. injection H as <-. exists (pages st). destruct st; reflexivity.
  - destruct (page (frames st f)) as [p|]; cbn.
    + destruct (fst (page_evict p (pages st))); cbn.
      * destruct (_ || _); discriminate.
      * intros H. injection H as <-. eexists. reflexivity.
    + destruct (_ || _); discriminate.
Qed.

Lemma frame_evict_true_inv (st st' : state) (f : kaddr) :
  frame_evict f st = Ok (true, st') ->
  st' = evicted f st /\ frame_table_lock st = true /\
  pinned (frames st f) = false /\ page_gives_way st f = true /\
  mem f (free_frames (ft st)) || mem f (allocated_frames (ft st)) = true.
Proof.
  unfold frame_evict, lock_held_by_current_thread, list_remove, write_page,
    page_gives_way, evicted. run_monad.
  destruct (frame_table_lock st); cbn; [|discriminate].
  destruct (pinned (frames st f)) eqn:Hp; [discriminate|].
  destruct (page (frames st f)) as [p|]; cbn.
  - destruct (fst (page_evict p (pages st))); cbn; [|discriminate].
    destruct (_ || _); [|discriminate].
    intros H. injection H as <-. rewrite ?Hp. repeat split.
  - destruct (_ || _); [|discriminate].
    intros H. injection H as <-. rewrite ?Hp. repeat split.
Qed.

(** *** The eviction scan *)

Lemma evict_all_fail_pages (l : list kaddr) (st s1 : state) :
  evict_all_fail l st s1 -> exists ps, s1 = set_pages ps st.
Proof.
  induction 1 as [st | f l st st1 st2 Hf _ IH].
  - exists (pages st). destruct st; reflexivity.
  - destruct IH as [ps ->]. apply frame_evict_false_inv in Hf.
    destruct Hf as [ps1 ->]. exists ps. reflexivity.
Qed.

Lemma evict_scan_none (l : list kaddr) (st s1 : state) :
  evict_all_fail l st s1 -> evict_scan l st = Ok (None, s1).
Proof.
  induction 1 as [st | f l st st1 st2 Hf _ IH]; cbn.
  - reflexivity.
  - unfold bind. now rewrite Hf.
Qed.

Lemma evict_scan_first (l1 l2 : list kaddr) (f : kaddr) (st s1 s2 : state) :
  evict_all_fail l1 st s1 -> frame_evict f s1 = Ok (true, s2) ->
  evict_scan (l1 ++ f :: l2) st = Ok (Some f, s2).
Proof.
  intros Hfail Hev. induction Hfail as [st | g l st st1 st2 Hg _ IH]; cbn.
  - unfold bind. now rewrite Hev.
  - unfold bind. rewrite Hg. now apply IH.
Qed.

Definition linked (st : state) (f : kaddr) : bool :=
  mem f (free_frames (ft st)) || mem f (allocated_frames (ft st)).

Lemma evict_scan_total (l : list kaddr) (st : state) :
  frame_table_lock st = true ->
  (forall g, In g l -> linked st g = true) ->
  (exists s1, evict_all_fail l st s1) \/
  (exists l1 f l2 s1, l = l1 ++ f :: l2 /\ evict_all_fail l1 st s1 /\
                      frame_evict f s1 = Ok (true, evicted f s1)).
Proof.
  revert st. induction l as [|g l IH]; intros st Hl Hin.
  - left. exists st. constructor.
  - destruct (frame_evict_cases st g Hl (Hin g (or_introl eq_refl)))
      as [[ps Hf] | (_ & _ & Hs)].
    + destruct (IH (set_pages ps st)) as [[s1 H1] | (l1 & f & l2 & s1 & -> & H1 & H2)].
      * exact Hl.
      * intros h Hh. apply (Hin h). now right.
      * left. exists s1. econstructor; eassumption.
      * right. exists (g :: l1), f, l2, s1. repeat split; [|exact H2].
        econstructor; eassumption.
    + right. exists [], g, l, st. repeat split; [constructor | exact Hs].
Qed.

(** *** [frame_alloc] case by case *)

Lemma snoc_match (A B : Type) (l : list A) (x : A) (a b : B) :
  match l ++ [x] with [] => a | _ :: _ => b end = b.
Proof. destruct l; reflexivity. Qed.

Lemma frame_alloc_from_free (st : state) (l : list kaddr) (f : kaddr) :
  frame_table_lock st = false -> free_frames (ft st) = l ++ [f] ->
  frame_alloc st =
  Ok (f, hand_out f (set_ft {| free_frames := l;
                               allocated_frames := allocated_frames (ft st) |}
                       (set_lock true st))).
Proof.
  intros Hl Hfree.
  unfold frame_alloc, lock_acquire, lock_release, lock_held_by_current_thread,
    pop_back_free, write_pinned, push_back_allocated. run_monad.
  rewrite Hl. cbn. rewrite Hfree, snoc_match. cbn.
  rewrite Hfree, rev_app_distr. cbn. rewrite removelast_snoc.
  reflexivity.
Qed.

Lemma frame_alloc_by_eviction (st s2 : state) (f : kaddr) :
  frame_table_lock st = false -> free_frames (ft st) = [] ->
  evict_scan (allocated_frames (ft st)) (set_lock true st) = Ok (Some f, s2) ->
  frame_table_lock s2 = true ->
  frame_alloc st = Ok (f, hand_out f s2).
Proof.
  intros Hl Hfree Hscan Hl2.
  unfold frame_alloc, frame_pick_and_evict, lock_acquire, lock_release,
    lock_held_by_current_thread, write_pinned, push_back_allocated. run_monad.
  rewrite Hl. cbn -[evict_scan]. rewrite Hfree. cbn -[evict_scan].
  destruct (allocated_frames (ft st)) as [|a r] eqn:E; [discriminate|].
  cbn -[evict_scan]. rewrite Hscan. cbn. rewrite Hl2. reflexivity.
Qed.

Lemma frame_alloc_exhausted (st s1 : state) :
  frame_table_lock st = false -> free_frames (ft st) = [] ->
  evict_all_fail (allocated_frames (ft st)) (set_lock true st) s1 ->
  frame_alloc st =
  Fault (match allocated_frames (ft st) with
         | [] => AssertionFailed
         | _ :: _ => KernelPanic
         end).
Proof.
  intros Hl Hfree Hfail. apply evict_scan_none in Hfail.
  unfold frame_alloc, frame_pick_and_evict, lock_acquire, lock_release,
    lock_held_by_current_thread, write_pinned, push_back_allocated. run_monad.
  rewrite Hl. cbn -[evict_scan]. rewrite Hfree. cbn -[evict_scan].
  destruct (allocated_frames (ft st)) as [|a r] eqn:E; [reflexivity|].
  cbn -[evict_scan]. now rewrite Hfail.
Qed.

(** *** The other calls *)

Lemma frame_pin_eq (st : state) (f : kaddr) :
  frame_table_lock st = false ->
  frame_pin f st =
  Ok (tt, set_lock false
            (set_frame f {| page := page (frames st f); pinned := true |} st)).
Proof.
  intros Hl. unfold frame_pin, lock_acquire, lock_release,
    lock_held_by_current_thread, write_pinned. run_monad.
  rewrite Hl. reflexivity.
Qed.

Lemma frame_unpin_eq (st : state) (f : kaddr) :
  frame_table_lock st = false ->
  frame_unpin f st =
  Ok (tt, set_lock false
            (set_frame f {| page := page (frames st f); pinned := false |} st)).
Proof.
  intros Hl. unfold frame_unpin, lock_acquire, lock_release,
    lock_held_by_current_thread, write_pinned. run_monad.
  rewrite Hl. reflexivity.
Qed.

Lemma frame_free_eq (st : state) (f : kaddr) :
  frame_table_lock st = false -> linked st f = true ->
  exists st',
    frame_free f st = Ok (tt, st') /\
    ft st' = {| free_frames := drop f (free_frames (ft st)) ++ [f];
                allocated_frames := drop f (allocated_frames (ft st)) |} /\
    frame_table_lock st' = false /\
    pages st' = pages st /\
    frames st' f = {| page := None; pinned := false |} /\
    (forall g, g <> f -> frames st' g = frames st g).
Proof.
  intros Hl Hm. unfold linked in Hm.
  unfold frame_free, lock_acquire, lock_release, lock_held_by_current_thread,
    write_pinned, write_page, list_remove, push_back_free. run_monad.
  rewrite Hl. cbn. rewrite Hm. cbn.
  eexists. split; [reflexivity|]. cbn. rewrite Nat.eqb_refl. cbn.
  repeat split.
  intros g Hg. apply Nat.eqb_neq in Hg. now rewrite Hg.
Qed.

Lemma frame_free_dangling (st : state) (f : kaddr) :
  frame_table_lock st = false -> linked st f = false ->
  frame_free f st = Fault DanglingElem.
Proof.
  intros Hl Hm. unfold linked in Hm.
  unfold frame_free, lock_acquire, lock_release, lock_held_by_current_thread,
    write_pinned, write_page, list_remove, push_back_free. run_monad.
  rewrite Hl. cbn. rewrite Hm. reflexivity.
Qed.

Lemma init_frames_eq (pool : list kaddr) (st : state) :
  exists st',
    init_frames pool st = Ok (tt, st') /\
    ft st' = {| free_frames := free_frames (ft st) ++ pool;
                allocated_frames := allocated_frames (ft st) |} /\
    frame_table_lock st' = frame_table_lock st /\
    (forall f, In f pool -> frames st' f = {| page := None; pinned := false |}) /\
    (forall f, ~ In f pool -> frames st' f = frames st f).
Proof.
  revert st. induction pool as [|u pool IH]; intros st; cbn.
  - exists st. repeat split; auto; try tauto.
    rewrite app_nil_r. now destruct (ft st).
  - unfold push_back_free. run_monad.
    match goal with |- context [init_frames pool ?s] => destruct (IH s) as (st' & E & Hft & Hl & Hin & Hout) end.
    exists st'. cbn in *. repeat split; auto.
    + rewrite Hft, <- app_assoc. reflexivity.
    + intros f [<- | Hf]; [|now apply Hin].
      destruct (in_dec Nat.eq_dec u pool) as [Hi | Hn]; [now apply Hin|].
      rewrite (Hout u Hn). now rewrite Nat.eqb_refl.
    + intros f Hf. rewrite Hout by tauto.
      destruct (Nat.eqb_spec f u) as [->|_]; [tauto | reflexivity].
Qed.

Lemma frame_init_eq (pool : list kaddr) (ps : pstate) :
  exists st,
    frame_init pool (boot ps) = Ok (tt, st) /\
    ft st = {| free_frames := pool; allocated_frames := [] |} /\
    frame_table_lock st = false /\
    (forall f, frames st f = {| page := None; pinned := false |}).
Proof.
  unfold frame_init, lock_init, lock_acquire, lock_release,
    lock_held_by_current_thread. run_monad.
  match goal with |- context [init_frames pool ?s] => destruct (init_frames_eq pool s) as (st' & E & Hft & Hl & Hin & Hout) end.
  rewrite E. cbn in *. rewrite Hl. cbn.
  eexists. split; [reflexivity|]. cbn. repeat split; auto.
  intros f. destruct (in_dec Nat.eq_dec f pool) as [Hi | Hn].
  - now apply Hin.
  - now rewrite Hout.
Qed.

(** *** The table between calls *)

Lemma drop_perm (f : kaddr) (l : list kaddr) :
  NoDup l -> In f l -> Permutation l (f :: drop f l).
Proof.
  induction l as [|g l IH]; intros Hnd Hin; [destruct Hin|].
  inversion Hnd as [|? ? Hg Hl]; subst.
  unfold drop in *. cbn. destruct (Nat.eqb_spec g f) as [->|Hne]; cbn.
  - fold (drop f l). now rewrite (drop_absent f l Hg).
  - destruct Hin as [->|Hin]; [congruence|].
    rewrite perm_swap. constructor. now apply IH.
Qed.

(** Relinking the frames keeps the table in order as long as the free
    frames stay clean. *)
Lemma table_ok_relink (pool : list kaddr) (st st' : state) :
  table_ok st = true -> covers pool st ->
  Permutation (free_frames (ft st) ++ allocated_frames (ft st))
              (free_frames (ft st') ++ allocated_frames (ft st')) ->
  frame_table_lock st' = false ->
  (forall g, In g (free_frames (ft st')) ->
             page (frames st' g) = None /\ pinned (frames st' g) = false) ->
  table_ok st' = true /\ covers pool st'.
Proof.
  intros Hok Hcov Hperm Hl Hclean. apply table_ok_iff in Hok.
  destruct Hok as (_ & Hnd & _). split.
  - apply table_ok_iff. repeat split; auto; try apply Hclean; auto.
    eapply Permutation_NoDup; eassumption.
  - intros f. rewrite (Hcov f). split; apply Permutation_in;
      [assumption | now apply Permutation_sym].
Qed.

Lemma free_not_allocated (st : state) (f : kaddr) :
  table_ok st = true -> In f (allocated_frames (ft st)) ->
  ~ In f (free_frames (ft st)).
Proof.
  intros Hok Ha Hf. apply table_ok_iff in Hok. destruct Hok as (_ & Hnd & _).
  revert Hnd Ha Hf. generalize (allocated_frames (ft st)).
  induction (free_frames (ft st)) as [|g l IH]; intros a Hnd Ha Hf; [destruct Hf|].
  cbn in Hnd. inversion Hnd as [|? ? Hg Hl]; subst.
  destruct Hf as [->|Hf].
  - apply Hg, in_or_app. now right.
  - now apply (IH a).
Qed.

(** What [frame_alloc] returned, read back from its result. *)
Lemma frame_alloc_inv (st st' : state) (f : kaddr) :
  table_ok st = true -> frame_alloc st = Ok (f, st') ->
  (exists l, free_frames (ft st) = l ++ [f] /\
             st' = hand_out f (set_ft {| free_frames := l;
                                         allocated_frames := allocated_frames (ft st) |}
                                 (set_lock true st))) \/
  (free_frames (ft st) = [] /\
   exists l1 l2 s1, allocated_frames (ft st) = l1 ++ f :: l2 /\
                    evict_all_fail l1 (set_lock true st) s1 /\
                    frame_evict f s1 = Ok (true, evicted f s1) /\
                    st' = hand_out f (evicted f s1)).
Proof.
  intros Hok Ha. pose proof Hok as Hok'. apply table_ok_iff in Hok'.
  destruct Hok' as (Hl & Hnd & Hclean).
  destruct (free_frames (ft st)) as [|a r] eqn:Hfree.
  - right. split; [reflexivity|].
    destruct (evict_scan_total (allocated_frames (ft st)) (set_lock true st))
      as [[s1 Hfail] | (l1 & g & l2 & s1 & E & Hfail & Hev)].
    + reflexivity.
    + intros g Hg. unfold linked. cbn. apply mem_In in Hg. rewrite Hg.
      apply orb_true_r.
    + rewrite (frame_alloc_exhausted st s1 Hl Hfree Hfail) in Ha. discriminate.
    + cbn in E. pose proof (evict_scan_first _ l2 _ _ _ _ Hfail Hev) as Hscan.
      rewrite <- E in Hscan.
      destruct (evict_all_fail_pages _ _ _ Hfail) as [ps Hs1].
      assert (Hl2 : frame_table_lock (evicted g s1) = true) by (subst s1; reflexivity).
      rewrite (frame_alloc_by_eviction st _ _ Hl Hfree Hscan Hl2) in Ha.
      injection Ha as <- <-. exists l1, l2, s1. auto.
  - left. destruct (@exists_last _ (a :: r)) as (l & x & E); [discriminate|].
    rewrite E in Hfree. rewrite (frame_alloc_from_free st _ _ Hl Hfree) in Ha.
    injection Ha as <- <-. exists l. rewrite E. auto.
Qed.

Lemma frame_alloc_keeps (pool : list kaddr) (st st' : state) (f : kaddr) :
  table_ok st = true -> covers pool st -> frame_alloc st = Ok (f, st') ->
  table_ok st' = true /\ covers pool st'.
Proof.
  intros Hok Hcov Ha. pose proof Hok as Hok'. apply table_ok_iff in Hok'.
  destruct Hok' as (Hl & Hnd & Hclean).
  destruct (frame_alloc_inv st _ _ Hok Ha)
    as [(l & Hfree & ->) | (Hfree & l1 & l2 & s1 & Halloc & Hfail & Hev & ->)].
  - apply table_ok_relink with (pool := pool) (st := st); auto; cbn.
    + rewrite Hfree, <- app_assoc. apply Permutation_app_head, Permutation_app_comm.
    + intros g Hg. rewrite Hfree in Hnd, Hclean.
      destruct (Nat.eqb_spec g f) as [->|Hne].
      * exfalso. rewrite <- app_assoc in Hnd. apply NoDup_remove_2 in Hnd.
        apply Hnd, in_or_app. now left.
      * apply Hclean, in_or_app. now left.
  - destruct (evict_all_fail_pages _ _ _ Hfail) as [ps ->].
    apply table_ok_relink with (pool := pool) (st := st); auto; cbn.
    + rewrite Hfree, Halloc in *. cbn [app] in Hnd |- *.
      rewrite (drop_middle _ _ _ Hnd).
      rewrite <- Permutation_cons_append. apply Permutation_sym, Permutation_middle.
    + rewrite Hfree. cbn. tauto.
Qed.

Lemma frame_free_keeps (pool : list kaddr) (st st' : state) (f : kaddr) :
  table_ok st = true -> covers pool st -> In f pool ->
  frame_free f st = Ok (tt, st') ->
  table_ok st' = true /\ covers pool st'.
Proof.
  intros Hok Hcov Hin Hf. pose proof Hok as Hok'. apply table_ok_iff in Hok'.
  destruct Hok' as (Hl & Hnd & Hclean).
  assert (Hlinked : linked st f = true).
  { unfold linked. rewrite <- mem_app. apply mem_In, Hcov, Hin. }
  destruct (frame_free_eq st f Hl Hlinked) as (s & E & Hft & Hl' & _ & Hff & Hother).
  rewrite E in Hf. injection Hf as <-.
  apply table_ok_relink with (pool := pool) (st := st); auto; rewrite Hft; cbn.
  - rewrite (drop_perm f _ Hnd (proj1 (Hcov f) Hin)) at 1.
    rewrite drop_app, <- app_assoc. apply Permutation_middle.
  - intros g Hg. apply in_app_or in Hg. destruct Hg as [Hg | [<- | []]].
    + apply In_drop in Hg. destruct Hg as [Hg Hne].
      rewrite (Hother g Hne). now apply Hclean.
    + now rewrite Hff.
Qed.

(** A write to an allocated frame, or one that keeps a free frame clean,
    leaves the table in order. *)
Lemma frame_write_keeps (pool : list kaddr) (st : state) (f : kaddr) (v : frame) :
  table_ok st = true -> covers pool st ->
  (In f (free_frames (ft st)) -> page v = None /\ pinned v = false) ->
  table_ok (set_lock false (set_frame f v st)) = true /\
  covers pool (set_lock false (set_frame f v st)).
Proof.
  intros Hok Hcov Hv. pose proof Hok as Hok'. apply table_ok_iff in Hok'.
  destruct Hok' as (Hl & Hnd & Hclean).
  apply table_ok_relink with (pool := pool) (st := st); auto; cbn.
  intros g Hg. destruct (Nat.eqb_spec g f) as [->|_]; auto.
Qed.

Lemma reachable_table_ok (pool : list kaddr) (st : state) :
  reachable pool st -> table_ok st = true /\ covers pool st.
Proof.
  induction 1 as [ps st Hnd Hinit
                 | st f st' _ [Hok Hcov] Ha
                 | st f st' _ [Hok Hcov] Hin Hf
                 | st f st' _ [Hok Hcov] Hin Hp
                 | st f st' _ [Hok Hcov] Hin Hu
                 | st f b st' _ [Hok Hcov] He
                 | st f p st' _ [Hok Hcov] Hin Hi].
  - destruct (frame_init_eq pool ps) as (s & E & Hft & Hl & Hfr).
    rewrite E in Hinit. injection Hinit as <-. split.
    + apply table_ok_iff. rewrite Hft. cbn. rewrite app_nil_r.
      repeat split; auto; try (now rewrite Hfr). now apply nodupb_NoDup.
    + intros f. rewrite Hft. cbn. now rewrite app_nil_r.
  - eapply frame_alloc_keeps; eassumption.
  - apply mem_In in Hin. eapply frame_free_keeps; eassumption.
  - pose proof Hok as Hok'. apply table_ok_iff in Hok'. destruct Hok' as (Hl & _).
    rewrite (frame_pin_eq st f Hl) in Hp. injection Hp as <-.
    apply frame_write_keeps; auto. intros Hfree. exfalso.
    apply mem_In in Hin. exact (free_not_allocated st f Hok Hin Hfree).
  - pose proof Hok as Hok'. apply table_ok_iff in Hok'. destruct Hok' as (Hl & _ & Hclean).
    rewrite (frame_unpin_eq st f Hl) in Hu. injection Hu as <-.
    apply frame_write_keeps; auto. intros Hfree. cbn. split; [|reflexivity].
    now apply Hclean.
  - pose proof Hok as Hok'. apply table_ok_iff in Hok'. destruct Hok' as (Hl & _).
    rewrite (frame_evict_unlocked st f Hl) in He. discriminate.
  - pose proof Hok as Hok'. apply table_ok_iff in Hok'. destruct Hok' as (Hl & _).
    unfold page_install, write_page in Hi. run_monad. injection Hi as <-.
    assert (E : forall v, set_frame f v st = set_lock false (set_frame f v st)).
    { intros v. unfold set_lock, set_frame. cbn. now rewrite Hl. }
    rewrite E. apply frame_write_keeps; auto. intros Hfree. exfalso.
    apply mem_In in Hin. exact (free_not_allocated st f Hok Hin Hfree).
Qed.

(** *** The claims on the frame table *)

(** C1: [frame_alloc], called between two operations, hands out a frame whose
    back-reference is cleared and whose pinned flag is set, linked at the back
    of the allocated list.  With a free frame at hand it takes one (the last of
    the free list); with none it tries [frame_evict] on the allocated frames
    from the front, in the order they were inserted, and takes the first on
    which it succeeds; when it succeeds on none the kernel panics and nothing
    is returned.  No other outcome exists. *)
Theorem frame_alloc_spec (st : state) :
  table_ok st = true ->
  (forall f st', frame_alloc st = Ok (f, st') ->
     page (frames st' f) = None /\ pinned (frames st' f) = true /\
     In f (allocated_frames (ft st'))) /\
  (forall l f, free_frames (ft st) = l ++ [f] ->
     exists st', frame_alloc st = Ok (f, st') /\
       free_frames (ft st') = l /\
       allocated_frames (ft st') = allocated_frames (ft st) ++ [f]) /\
  (free_frames (ft st) = [] ->
   forall l1 f l2 s1 s2,
     allocated_frames (ft st) = l1 ++ f :: l2 ->
     evict_all_fail l1 (set_lock true st) s1 ->
     frame_evict f s1 = Ok (true, s2) ->
     exists st', frame_alloc st = Ok (f, st') /\
       free_frames (ft st') = [] /\
       allocated_frames (ft st') = (l1 ++ l2) ++ [f]) /\
  (free_frames (ft st) = [] ->
   forall s1,
     evict_all_fail (allocated_frames (ft st)) (set_lock true st) s1 ->
     frame_alloc st = Fault (match allocated_frames (ft st) with
                             | [] => AssertionFailed
                             | _ :: _ => KernelPanic
                             end)) /\
  (free_frames (ft st) = [] ->
   (exists s1, evict_all_fail (allocated_frames (ft st)) (set_lock true st) s1) \/
   (exists l1 f l2 s1 s2,
      allocated_frames (ft st) = l1 ++ f :: l2 /\
      evict_all_fail l1 (set_lock true st) s1 /\
      frame_evict f s1 = Ok (true, s2))).
Proof.
  intros Hok. pose proof Hok as Hok'. apply table_ok_iff in Hok'.
  destruct Hok' as (Hl & Hnd & Hclean).
  split; [|split; [|split; [|split]]].
  - intros f st' Ha.
    destruct (frame_alloc_inv st _ _ Hok Ha)
      as [(l & Hfree & ->) | (Hfree & l1 & l2 & s1 & Halloc & Hfail & Hev & ->)].
    + cbn. rewrite Nat.eqb_refl. cbn. repeat split.
      * apply Hclean. rewrite Hfree. apply in_or_app. right. now left.
      * apply in_or_app. right. now left.
    + cbn. rewrite Nat.eqb_refl. cbn. rewrite ?Nat.eqb_refl. cbn. repeat split.
      apply in_or_app. right. now left.
  - intros l f Hfree. eexists. split.
    + apply frame_alloc_from_free; eassumption.
    + cbn. split; reflexivity.
  - intros Hfree l1 f l2 s1 s2 Halloc Hfail Hev.
    pose proof (evict_scan_first _ l2 _ _ _ _ Hfail Hev) as Hscan.
    rewrite <- Halloc in Hscan.
    destruct (frame_evict_true_inv _ _ _ Hev) as (-> & Hl1 & _).
    destruct (evict_all_fail_pages _ _ _ Hfail) as [ps ->].
    eexists. split.
    + apply frame_alloc_by_eviction; try eassumption; reflexivity.
    + cbn. rewrite Hfree, Halloc in *. cbn [app] in Hnd.
      rewrite (drop_middle _ _ _ Hnd). split; reflexivity.
  - intros Hfree s1 Hfail. now apply frame_alloc_exhausted with (s1 := s1).
  - intros Hfree.
    destruct (evict_scan_total (allocated_frames (ft st)) (set_lock true st))
      as [[s1 Hfail] | (l1 & g & l2 & s1 & E & Hfail & Hev)].
    + reflexivity.
    + intros g Hg. unfold linked. cbn. apply mem_In in Hg. rewrite Hg.
      apply orb_true_r.
    + left. now exists s1.
    + right. exists l1, g, l2, s1, (evicted g s1). auto.
Qed.


(** C4: under the table lock, [frame_evict] returns false and changes nothing
    of the frames and the table when the frame is pinned, or when its page
    refuses eviction (then only the page layer's own state has moved); when
    it succeeds on an allocated frame it clears the back-reference, unlinks
    the frame from the allocated list and returns true. *)
Theorem frame_evict_spec (st : state) (f : kaddr) :
  frame_table_lock st = true ->
  (pinned (frames st f) = true -> frame_evict f st = Ok (false, st)) /\
  (forall p, pinned (frames st f) = false ->
             page (frames st f) = Some p ->
             fst (page_evict p (pages st)) = false ->
             frame_evict f st =
             Ok (false, set_pages (snd (page_evict p (pages st))) st)) /\
  (pinned (frames st f) = false -> page_gives_way st f = true ->
   In f (allocated_frames (ft st)) ->
   exists st',
     frame_evict f st = Ok (true, st') /\
     page (frames st' f) = None /\
     ~ In f (allocated_frames (ft st')) /\
     (forall g, g <> f ->
                frames st' g = frames st g /\
                (In g (allocated_frames (ft st')) <-> In g (allocated_frames (ft st))))).
Proof.
  intros Hl. split; [|split].
  - intros Hp. now apply frame_evict_pinned.
  - intros p Hp Hpg Hr. now apply frame_evict_refused.
  - intros Hp Hg Hin. exists (evicted f st). split.
    + apply frame_evict_success; auto.
      apply mem_In in Hin. rewrite Hin. apply orb_true_r.
    + cbn. rewrite Nat.eqb_refl. cbn. repeat split.
      * intros Hd. apply In_drop in Hd. now destruct Hd.
      * apply Nat.eqb_neq in H. now rewrite H.
      * intros Hd. apply In_drop in Hd. now destruct Hd.
      * intros Hd. now apply In_drop.
Qed.

(** C9: in a reachable state, [frame_pin]; [frame_pin]; [frame_unpin] on a
    frame returns and leaves the frame unpinned: the flag does not count. *)
Theorem pin_pin_unpin (pool : list kaddr) (st : state) (f : kaddr) :
  reachable pool st ->
  exists st',
    (frame_pin f ;; frame_pin f ;; frame_unpin f) st = Ok (tt, st') /\
    pinned (frames st' f) = false.
Proof.
  intros Hr. destruct (reachable_table_ok pool st Hr) as [Hok _].
  apply table_ok_iff in Hok. destruct Hok as (Hl & _).
  unfold bind. rewrite (frame_pin_eq st f Hl).
  rewrite frame_pin_eq by reflexivity. rewrite frame_unpin_eq by reflexivity.
  eexists. split; [reflexivity|]. cbn. now rewrite Nat.eqb_refl.
Qed.

End WithPageLayer.

(** *** The calls on a concrete table *)

Lemma demo_reachable : reachable [1; 2] demo_state.
Proof.
  apply reach_unpin with (st := demo_after 2) (f := 2);
    [|vm_compute; reflexivity|vm_compute; reflexivity].
  apply reach_install with (st := demo_after 1) (f := 2) (p := 4);
    [|vm_compute; reflexivity|vm_compute; reflexivity].
  apply reach_alloc with (st := demo_after 0) (f := 2); [|vm_compute; reflexivity].
  apply reach_init with (ps := []); vm_compute; reflexivity.
Qed.

Lemma frame_alloc_spec_witness :
  table_ok demo_state = true /\
  exists st', frame_alloc demo_state = Ok (1, st') /\
              free_frames (ft st') = [] /\
              allocated_frames (ft st') = [2; 1].
Proof.
  split; [reflexivity|].
  destruct (frame_alloc_spec demo_state eq_refl) as (_ & H & _).
  exact (H [] 1 eq_refl).
Defined.



Lemma frame_evict_spec_witness :
  frame_table_lock demo_locked = true /\
  exists st', frame_evict 2 demo_locked = Ok (true, st') /\
              page (frames st' 2) = None /\
              ~ In 2 (allocated_frames (ft st')).
Proof.
  split; [reflexivity|].
  destruct (frame_evict_spec demo_locked 2 eq_refl) as (_ & _ & H).
  destruct (H eq_refl eq_refl (or_introl eq_refl)) as (st' & E & Hp & Hn & _).
  exists st'. auto.
Defined.

Lemma pin_pin_unpin_witness :
  reachable [1; 2] demo_state /\
  exists st', (frame_pin 2 ;; frame_pin 2 ;; frame_unpin 2) demo_state = Ok (tt, st') /\
              pinned (frames st' 2) = false.
Proof.
  split; [exact demo_reachable|].
  exact (pin_pin_unpin [1; 2] demo_state 2 demo_reachable).
Defined.

(** *** Further properties of the frame table *)

Section MoreOnFrames.
Context {PL : PageLayer}.

(** [frame_init] returns and leaves the pages of the pool in the free list,
    in the order [palloc_get_page] handed them out, every frame clean, no
    frame allocated and the lock released. *)
Theorem frame_init_populates (pool : list kaddr) (ps : pstate) :
  exists st,
    frame_init pool (boot ps) = Ok (tt, st) /\
    free_frames (ft st) = pool /\
    allocated_frames (ft st) = [] /\
    frame_table_lock st = false /\
    (forall f, page (frames st f) = None /\ pinned (frames st f) = false).
Proof.
  destruct (frame_init_eq pool ps) as (st & E & Hft & Hl & Hfr).
  exists st. rewrite Hft. repeat split; auto; now rewrite Hfr.
Qed.

Lemma reachable_pool_nodup (pool : list kaddr) (st : state) :
  reachable pool st -> NoDup pool.
Proof. induction 1; auto. now apply nodupb_NoDup. Qed.

(** Frames are neither made nor lost after boot: in every reachable state
    the two lists together hold as many frames as the pool had pages. *)
Theorem frames_are_conserved (pool : list kaddr) (st : state) :
  reachable pool st ->
  List.length (free_frames (ft st)) + List.length (allocated_frames (ft st))
  = List.length pool.
Proof.
  intros Hr. destruct (reachable_table_ok pool st Hr) as [Hok Hcov].
  apply table_ok_iff in Hok. destruct Hok as (_ & Hnd & _).
  rewrite <- length_app. symmetry. apply Permutation_length.
  apply NoDup_Permutation; auto. now apply reachable_pool_nodup with (st := st).
Qed.

(** A frame that was just freed is the one the next [frame_alloc] hands
    out: the free list is used as a stack. *)
Theorem free_then_alloc_reuses (pool : list kaddr) (st : state) (f : kaddr) :
  reachable pool st -> In f pool ->
  exists st',
    (frame_free f ;; frame_alloc) st = Ok (f, st') /\
    page (frames st' f) = None /\ pinned (frames st' f) = true /\
    In f (allocated_frames (ft st')).
Proof.
  intros Hr Hin. destruct (reachable_table_ok pool st Hr) as [Hok Hcov].
  pose proof Hok as Hok'. apply table_ok_iff in Hok'. destruct Hok' as (Hl & _).
  assert (Hlinked : linked st f = true).
  { unfold linked. rewrite <- mem_app. apply mem_In, Hcov, Hin. }
  destruct (frame_free_eq st f Hl Hlinked) as (s1 & E & Hft & Hl1 & _ & Hff & _).
  unfold bind. rewrite E.
  rewrite (frame_alloc_from_free s1 (drop f (free_frames (ft st))) f Hl1)
    by (now rewrite Hft).
  eexists. split; [reflexivity|]. cbn. rewrite Nat.eqb_refl, Hff. cbn.
  repeat split. apply in_or_app. right. now left.
Qed.

(** What [frame_pin] promises: a pinned allocated frame is not the frame a
    later [frame_alloc] hands out; it stays allocated, with its page. *)
Theorem pinned_frame_survives_alloc (st st' : state) (f g : kaddr) :
  table_ok st = true ->
  In f (allocated_frames (ft st)) -> pinned (frames st f) = true ->
  frame_alloc st = Ok (g, st') ->
  g <> f /\ In f (allocated_frames (ft st')) /\ frames st' f = frames st f.
Proof.
  intros Hok Hin Hpin Ha.
  destruct (frame_alloc_inv st st' g Hok Ha)
    as [(l & Hfree & ->) | (Hfree & l1 & l2 & s1 & Halloc & Hfail & Hev & ->)].
  - assert (Hne : g <> f).
    { intros ->. apply (free_not_allocated st f Hok Hin).
      rewrite Hfree. apply in_or_app. right. now left. }
    split; [exact Hne|]. cbn. split.
    + apply in_or_app. now left.
    + apply not_eq_sym, Nat.eqb_neq in Hne. now rewrite Hne.
  - destruct (evict_all_fail_pages _ _ _ Hfail) as [ps ->].
    destruct (frame_evict_true_inv _ _ _ Hev) as (_ & _ & Hunp & _).
    cbn in Hunp.
    assert (Hne : g <> f) by (intros ->; congruence).
    split; [exact Hne|]. cbn. split.
    + apply in_or_app. left. apply In_drop. split; auto.
    + apply not_eq_sym, Nat.eqb_neq in Hne. now rewrite !Hne.
Qed.

Lemma pinned_all_fail (l : list kaddr) (st : state) :
  frame_table_lock st = true ->
  forallb (fun f => pinned (frames st f)) l = true ->
  evict_all_fail l st st.
Proof.
  intros Hl. induction l as [|f l IH]; cbn; intros H; [constructor|].
  apply andb_true_iff in H. destruct H as [Hf Hrest].
  econstructor; [now apply frame_evict_pinned | now apply IH].
Qed.

(** With no free frame and every allocated frame pinned, [frame_alloc] does
    not return: the kernel panics. *)
Theorem all_pinned_panics (st : state) :
  table_ok st = true ->
  free_frames (ft st) = [] -> allocated_frames (ft st) <> [] ->
  forallb (fun f => pinned (frames st f)) (allocated_frames (ft st)) = true ->
  frame_alloc st = Fault KernelPanic.
Proof.
  intros Hok Hfree Hne Hpin. apply table_ok_iff in Hok. destruct Hok as (Hl & _).
  rewrite (frame_alloc_exhausted st (set_lock true st) Hl Hfree).
  - destruct (allocated_frames (ft st)); [congruence | reflexivity].
  - now apply pinned_all_fail.
Qed.

End MoreOnFrames.

Lemma frames_are_conserved_witness :
  reachable [1; 2] demo_state /\
  List.length (free_frames (ft demo_state))
  + List.length (allocated_frames (ft demo_state)) = 2.
Proof.
  split; [exact demo_reachable|].
  exact (frames_are_conserved [1; 2] demo_state demo_reachable).
Defined.

Lemma free_then_alloc_reuses_witness :
  reachable [1; 2] demo_state /\ In 2 [1; 2] /\
  exists st' : @state demo_pages,
    (frame_free 2 ;; frame_alloc) demo_state = Ok (2, st') /\
              page (frames st' 2) = None /\ pinned (frames st' 2) = true /\
              In 2 (allocated_frames (ft st')).
Proof.
  split; [exact demo_reachable|]. split; [simpl; auto|].
  exact (free_then_alloc_reuses [1; 2] demo_state 2 demo_reachable
           (or_intror (or_introl eq_refl))).
Defined.

Lemma demo_pin_alloc :
  exists st1 st2 : @state demo_pages,
    frame_pin 2 demo_state = Ok (tt, st1) /\ frame_alloc st1 = Ok (1, st2) /\
    table_ok st1 = true /\ In 2 (allocated_frames (ft st1)) /\
    pinned (frames st1 2) = true.
Proof.
  eexists _, _. split; [vm_compute; reflexivity|].
  split; [vm_compute; reflexivity|].
  split; [vm_compute; reflexivity|]. split; [vm_compute; auto | vm_compute; reflexivity].
Qed.

Lemma pinned_frame_survives_alloc_witness :
  exists st1 st2 : @state demo_pages,
    table_ok st1 = true /\ In 2 (allocated_frames (ft st1)) /\
    pinned (frames st1 2) = true /\ frame_alloc st1 = Ok (1, st2) /\
    1 <> 2 /\ In 2 (allocated_frames (ft st2)).
Proof.
  destruct demo_pin_alloc as (st1 & st2 & _ & Ha & Hok & Hin & Hpin).
  exists st1, st2.
  destruct (pinned_frame_survives_alloc st1 st2 2 1 Hok Hin Hpin Ha)
    as (Hne & Hin2 & _).
  repeat split; assumption.
Defined.

Lemma demo_full_facts :
  table_ok demo_full = true /\ free_frames (ft demo_full) = [] /\
  allocated_frames (ft demo_full) = [2; 1] /\
  forallb (fun f => pinned (frames demo_full f)) (allocated_frames (ft demo_full))
  = true.
Proof. repeat split; vm_compute; reflexivity. Qed.

Lemma all_pinned_panics_witness :
  table_ok demo_full = true /\ free_frames (ft demo_full) = [] /\
  frame_alloc demo_full = Fault KernelPanic.
Proof.
  destruct demo_full_facts as (Hok & Hfree & Halloc & Hpin).
  split; [exact Hok|]. split; [exact Hfree|].
  apply (all_pinned_panics demo_full Hok Hfree); [|exact Hpin].
  rewrite Halloc. discriminate.
Defined.

End FrameProofs.


(** ** Properties of the directory layer *)

Module DirProofs.
Import Directory.

(** *** Strings *)

Lemma append_assoc (a b c : string) :
  String.append (String.append a b) c = String.append a (String.append b c).
Proof. induction a as [|x a IH]; cbn; [reflexivity | now rewrite IH]. Qed.

Lemma length_append (a b : string) :
  String.length (String.append a b) = String.length a + String.length b.
Proof. induction a as [|x a IH]; cbn; [reflexivity | now rewrite IH]. Qed.

Lemma append_nil_r (a : string) : String.append a EmptyString = a.
Proof. induction a as [|x a IH]; cbn; [reflexivity | now rewrite IH]. Qed.

Lemma substring_prefix (a b : string) :
  substring 0 (String.length a) (String.append a b) = a.
Proof.
  induction a as [|x a IH]; cbn.
  - now destruct b.
  - now rewrite IH.
Qed.

Lemma strlcpy_prefix (a b : string) :
  strlcpy (String.append a b) (String.length a + 1) = a.
Proof.
  unfold strlcpy. replace (String.length a + 1 - 1) with (String.length a) by lia.
  apply substring_prefix.
Qed.

Lemma strlcpy_short (a : string) (n : nat) :
  String.length a <= n -> strlcpy a (n + 1) = a.
Proof.
  unfold strlcpy. replace (n + 1 - 1) with n by lia.
  revert n. induction a as [|x a IH]; intros n Hn; cbn in *.
  - now destruct n.
  - destruct n as [|n]; [lia|]. cbn. rewrite IH by lia. reflexivity.
Qed.

Lemma strchr_app (pre z : string) :
  strchr pre "/" = None ->
  strchr (String.append pre (String "/" z)) "/" = Some (String "/" z).
Proof.
  induction pre as [|x pre IH]; cbn; [reflexivity|].
  destruct (Ascii.eqb x "/"); [discriminate | exact IH].
Qed.

Lemma split_slash (x : string) :
  strchr x "/" = None \/
  exists pre rest, x = String.append pre (String "/" rest) /\ strchr pre "/" = None.
Proof.
  induction x as [|a x IH]; cbn; [now left|].
  destruct (Ascii.eqb_spec a "/") as [->|Hne].
  - right. exists EmptyString, x. split; reflexivity.
  - destruct IH as [IH | (pre & rest & -> & Hpre)]; [now left|].
    right. exists (String a pre), rest. split; [reflexivity|].
    cbn. destruct (Ascii.eqb_spec a "/"); [contradiction | exact Hpre].
Qed.

(** *** The shared loop *)

Ltac run_monad :=
  unfold bind, ret, gets, modify, raise, ASSERT in *; cbn in *.

Lemma skipn_nth (es : list dir_entry) (ofs : nat) :
  match skipn ofs es with
  | [] => nth_error es ofs = None
  | e :: r => nth_error es ofs = Some e /\ skipn (S ofs) es = r
  end.
Proof.
  revert ofs. induction es as [|x es IH]; intros [|ofs]; cbn; auto.
  apply IH.
Qed.

Lemma logged_logged (a b : list access) (st : fs) :
  logged b (logged a st) = logged (a ++ b) st.
Proof. unfold logged, set_log. cbn. now rewrite app_assoc. Qed.

Lemma logged_nil (st : fs) : logged [] st = st.
Proof. unfold logged, set_log. rewrite app_nil_r. now destruct st. Qed.

Lemma scan_eq (fuel : nat) (i : inode_ptr) (stop : dir_entry -> bool) (ofs : nat)
    (st : fs) :
  List.length (skipn ofs (slots (disk st i))) < fuel ->
  scan fuel i stop ofs st =
  Ok (find_slot stop (skipn ofs (slots (disk st i))) ofs,
      logged (scan_log i (holds i st) stop (skipn ofs (slots (disk st i))) ofs) st).
Proof.
  revert ofs st. induction fuel as [|fuel IH]; intros ofs st Hf; [lia|].
  cbn [scan]. unfold inode_read_at, note, inode_dir_lock. run_monad.
  pose proof (skipn_nth (slots (disk st i)) ofs) as Hn.
  destruct (skipn ofs (slots (disk st i))) as [|e r] eqn:E.
  - rewrite Hn. reflexivity.
  - destruct Hn as [Hn Hr]. rewrite Hn. cbn.
    destruct (stop e); [reflexivity|].
    rewrite IH; unfold holds; cbn [disk held set_log]; rewrite Hr.
    + unfold logged, set_log. cbn [disk open_cnt removed room held cwd log].
      now rewrite <- app_assoc.
    + cbn in Hf. lia.
Qed.

Lemma scan_entries_eq (i : inode_ptr) (stop : dir_entry -> bool) (ofs : nat)
    (st : fs) :
  scan_entries i stop ofs st =
  Ok (find_slot stop (skipn ofs (slots (disk st i))) ofs,
      logged (scan_log i (holds i st) stop (skipn ofs (slots (disk st i))) ofs) st).
Proof.
  unfold scan_entries. unfold bind at 1. unfold gets at 1.
  apply scan_eq. rewrite length_skipn. lia.
Qed.

Lemma scan_log_locked (i : inode_ptr) (stop : dir_entry -> bool)
    (es : list dir_entry) (ofs : nat) :
  all_locked (scan_log i true stop es ofs) = true.
Proof.
  revert ofs. induction es as [|e r IH]; intros ofs; cbn; [reflexivity|].
  destruct (stop e); [reflexivity | apply IH].
Qed.

Lemma all_locked_app (a b : list access) :
  all_locked (a ++ b) = all_locked a && all_locked b.
Proof. apply forallb_app. Qed.

Lemma lookup_eq (d : dir) (nm : string) (st : fs) :
  lookup d nm st =
  Ok (found nm (slots (disk st (inode d))),
      logged (scan_log (inode d) (holds (inode d) st) (named nm)
                (slots (disk st (inode d))) 0) st).
Proof.
  unfold lookup, found. unfold bind. rewrite scan_entries_eq. cbn [skipn].
  fold (named nm).
  change (fun e => in_use e && streq nm (name e)) with (named nm).
  destruct (find_slot (named nm) (slots (disk st (inode d))) 0) as [[e|] k];
    reflexivity.
Qed.

(** *** Locks and handles *)

Lemma bind_eq (S A B : Type) (m : M S A) (k : A -> M S B) (st st1 : S) (a : A) :
  m st = Ok (a, st1) -> bind m k st = k a st1.
Proof. intros H. unfold bind. now rewrite H. Qed.

Lemma filter_not_held (l : inode_ptr) (h : list inode_ptr) :
  existsb (Nat.eqb l) h = false ->
  filter (fun x => negb (Nat.eqb x l)) h = h.
Proof.
  induction h as [|x h IH]; cbn; [reflexivity|].
  rewrite orb_false_iff. intros [Hx Hh]. rewrite Nat.eqb_sym, Hx. cbn.
  now rewrite IH.
Qed.

Lemma lock_acquire_eq (l : inode_ptr) (st : fs) :
  holds l st = false ->
  lock_acquire l st = Ok (tt, set_held (l :: held st) st).
Proof.
  intros H. unfold lock_acquire, lock_held_by_current_thread. run_monad.
  now rewrite H.
Qed.

Lemma lock_release_eq (l : inode_ptr) (st : fs) :
  holds l st = true ->
  lock_release l st =
  Ok (tt, set_held (filter (fun x => negb (Nat.eqb x l)) (held st)) st).
Proof.
  intros H. unfold lock_release, lock_held_by_current_thread. run_monad.
  now rewrite H.
Qed.

Lemma unlock_if_held_eq (l : inode_ptr) (st : fs) :
  unlock_if_held l st =
  Ok (tt, set_held (filter (fun x => negb (Nat.eqb x l)) (held st)) st).
Proof.
  unfold unlock_if_held, lock_held_by_current_thread. unfold bind at 1.
  unfold gets at 1. destruct (holds l st) eqn:H.
  - now apply lock_release_eq.
  - unfold ret. unfold holds in H. rewrite (filter_not_held _ _ H).
    now destruct st.
Qed.

(** A lock taken and given back leaves the thread's locks as they were. *)
Lemma held_restored (l : inode_ptr) (h : list inode_ptr) :
  existsb (Nat.eqb l) h = false ->
  filter (fun x => negb (Nat.eqb x l)) (l :: h) = h.
Proof.
  intros H. cbn. rewrite Nat.eqb_refl. cbn. now apply filter_not_held.
Qed.

Lemma find_slot_none (stop : dir_entry -> bool) (es : list dir_entry) (ofs : nat) :
  match fst (find_slot stop es ofs) with Some _ => false | None => true end =
  forallb (fun e => negb (stop e)) es.
Proof.
  revert ofs. induction es as [|e r IH]; intros ofs; cbn; [reflexivity|].
  destruct (stop e); cbn; [reflexivity | apply IH].
Qed.

Lemma forallb_pointwise (A : Type) (f g : A -> bool) (l : list A) :
  (forall x, f x = g x) -> forallb f l = forallb g l.
Proof.
  intros H. induction l as [|x l IH]; cbn; [reflexivity | now rewrite H, IH].
Qed.

Lemma dir_empty_eq (d : dir) (st : fs) :
  holds (inode d) st = false ->
  exists new,
    dir_empty d st = Ok (only_dots (slots (disk st (inode d))), logged new st) /\
    all_locked new = true.
Proof.
  intros H. unfold dir_empty, dir_lock, inode_dir_lock.
  rewrite (bind_eq _ _ _ _ _ _ _ _ (lock_acquire_eq _ _ H)).
  rewrite (bind_eq _ _ _ _ _ _ _ _ (scan_entries_eq _ _ _ _)).
  unfold holds at 1. cbn [held set_held disk skipn existsb]. rewrite Nat.eqb_refl.
  cbn [orb].
  erewrite bind_eq; cycle 1.
  { apply lock_release_eq. unfold holds, logged.
    cbn [held set_log set_held existsb]. now rewrite Nat.eqb_refl. }
  unfold ret. eexists. split; [|apply scan_log_locked].
  f_equal. f_equal.
  - rewrite find_slot_none. unfold only_dots. apply forallb_pointwise. intros e.
    destruct (in_use e), (streq "." (name e)), (streq ".." (name e)); reflexivity.
  - unfold logged, set_log, set_held. cbn [disk open_cnt removed room held cwd log].
    rewrite (held_restored _ _ H). destruct st; reflexivity.
Qed.

Lemma inode_open_eq (s : block_sector_t) (st : fs) :
  inode_open s st = Ok (Some s, opened s st).
Proof. reflexivity. Qed.

Lemma inode_close_eq (s : inode_ptr) (st : fs) :
  1 <= open_cnt st s ->
  inode_close (Some s) st = Ok (tt, closed s st).
Proof.
  intros H. unfold inode_close, closed. run_monad.
  destruct (open_cnt st s) as [|c] eqn:E; [lia|]. cbn.
  rewrite Nat.sub_0_r.
  destruct (Nat.eqb c 0 && removed st s); reflexivity.
Qed.

Lemma inode_write_at_inside (i : inode_ptr) (e : dir_entry) (ofs : nat) (st : fs) :
  ofs < List.length (slots (disk st i)) ->
  inode_write_at i e ofs st =
  Ok (true, written i ofs e
              (logged [{| acc_write := true; acc_inode := i; acc_slot := ofs;
                          acc_locked := holds i st |}] st)).
Proof.
  intros H. unfold inode_write_at, note, inode_dir_lock, written, logged. run_monad.
  replace (ofs - List.length (slots (disk st i))) with 0 by lia.
  destruct (List.length (slots (disk st i))) as [|n] eqn:E; [lia|].
  replace (ofs - n) with 0 by lia. cbn. reflexivity.
Qed.

Lemma find_slot_some (stop : dir_entry -> bool) (es : list dir_entry)
    (k ofs : nat) (e : dir_entry) :
  find_slot stop es k = (Some e, ofs) ->
  k <= ofs /\ nth_error es (ofs - k) = Some e /\ stop e = true /\
  forallb (fun x => negb (stop x)) (firstn (ofs - k) es) = true.
Proof.
  revert k. induction es as [|x es IH]; intros k; cbn; [discriminate|].
  destruct (stop x) eqn:Hx.
  - intros H. injection H as -> ->. rewrite Nat.sub_diag. cbn. auto.
  - intros H. apply IH in H. destruct H as (Hk & Hn & Hs & Hall).
    replace (ofs - k) with (S (ofs - S k)) by lia. cbn. rewrite Hx. cbn.
    repeat split; auto. lia.
Qed.

Lemma find_slot_end (stop : dir_entry -> bool) (es : list dir_entry)
    (k ofs : nat) :
  find_slot stop es k = (None, ofs) ->
  ofs = k + List.length es /\ forallb (fun x => negb (stop x)) es = true.
Proof.
  revert k. induction es as [|x es IH]; intros k; cbn.
  - intros H. injection H as <-. split; [lia | reflexivity].
  - destruct (stop x) eqn:Hx; [discriminate|].
    intros H. apply IH in H. destruct H as [-> Hall]. split; [lia | exact Hall].
Qed.

Lemma found_some (nm : string) (es : list dir_entry) (e : dir_entry) (ofs : nat) :
  found nm es = Some (e, ofs) ->
  nth_error es ofs = Some e /\ ofs < List.length es /\
  in_use e = true /\ name e = nm /\
  forallb (fun x => negb (named nm x)) (firstn ofs es) = true.
Proof.
  unfold found. destruct (find_slot (named nm) es 0) as [[x|] k] eqn:E; [|discriminate].
  intros H. injection H as -> ->. apply find_slot_some in E.
  rewrite Nat.sub_0_r in E. destruct E as (_ & Hn & Hs & Hall).
  unfold named in Hs. apply andb_true_iff in Hs. destruct Hs as [Hu Hname].
  apply String.eqb_eq in Hname. repeat split; auto.
  apply nth_error_Some. congruence.
Qed.

Lemma found_none (nm : string) (es : list dir_entry) :
  found nm es = None <-> forallb (fun x => negb (named nm x)) es = true.
Proof.
  unfold found. rewrite <- (find_slot_none (named nm) es 0).
  destruct (find_slot (named nm) es 0) as [[x|] k]; cbn; split; congruence.
Qed.

(** *** Reading the state back *)

Lemma disk_opened s st : disk (opened s st) = disk st.
Proof. unfold opened. now destruct (Nat.eqb (open_cnt st s) 0). Qed.
Lemma held_opened s st : held (opened s st) = held st.
Proof. unfold opened. now destruct (Nat.eqb (open_cnt st s) 0). Qed.
Lemma log_opened s st : log (opened s st) = log st.
Proof. unfold opened. now destruct (Nat.eqb (open_cnt st s) 0). Qed.
Lemma room_opened s st : room (opened s st) = room st.
Proof. unfold opened. now destruct (Nat.eqb (open_cnt st s) 0). Qed.
Lemma open_cnt_opened s st :
  open_cnt (opened s st) = upd (open_cnt st) s (S (open_cnt st s)).
Proof. unfold opened. now destruct (Nat.eqb (open_cnt st s) 0). Qed.
Lemma removed_opened s st :
  removed (opened s st) =
  if Nat.eqb (open_cnt st s) 0 then upd (removed st) s false else removed st.
Proof. unfold opened. now destruct (Nat.eqb (open_cnt st s) 0). Qed.

Lemma disk_closed s st :
  disk (closed s st) =
  if Nat.eqb (open_cnt st s - 1) 0 && removed st s
  then upd (disk st) s no_inode else disk st.
Proof. unfold closed. now destruct (_ && _). Qed.
Lemma held_closed s st : held (closed s st) = held st.
Proof. unfold closed. now destruct (_ && _). Qed.
Lemma log_closed s st : log (closed s st) = log st.
Proof. unfold closed. now destruct (_ && _). Qed.
Lemma open_cnt_closed s st :
  open_cnt (closed s st) = upd (open_cnt st) s (open_cnt st s - 1).
Proof. unfold closed. now destruct (_ && _). Qed.
Lemma removed_closed s st : removed (closed s st) = removed st.
Proof. unfold closed. now destruct (_ && _). Qed.
Lemma room_closed s st :
  room (closed s st) =
  if Nat.eqb (open_cnt st s - 1) 0 && removed st s
  then room st + List.length (slots (disk st s)) else room st.
Proof. unfold closed. now destruct (_ && _). Qed.

Lemma disk_logged l st : disk (logged l st) = disk st.
Proof. reflexivity. Qed.
Lemma held_logged l st : held (logged l st) = held st.
Proof. reflexivity. Qed.
Lemma log_logged l st : log (logged l st) = log st ++ l.
Proof. reflexivity. Qed.
Lemma open_cnt_logged l st : open_cnt (logged l st) = open_cnt st.
Proof. reflexivity. Qed.
Lemma removed_logged l st : removed (logged l st) = removed st.
Proof. reflexivity. Qed.
Lemma room_logged l st : room (logged l st) = room st.
Proof. reflexivity. Qed.

Lemma disk_written i ofs e st :
  disk (written i ofs e st) =
  upd (disk st) i {| is_directory := is_directory (disk st i);
                     slots := store (slots (disk st i)) ofs e |}.
Proof. reflexivity. Qed.
Lemma held_written i ofs e st : held (written i ofs e st) = held st.
Proof. reflexivity. Qed.
Lemma log_written i ofs e st : log (written i ofs e st) = log st.
Proof. reflexivity. Qed.
Lemma open_cnt_written i ofs e st : open_cnt (written i ofs e st) = open_cnt st.
Proof. reflexivity. Qed.
Lemma removed_written i ofs e st : removed (written i ofs e st) = removed st.
Proof. reflexivity. Qed.

Lemma upd_same (A : Type) (f : nat -> A) (k : nat) (v : A) : upd f k v k = v.
Proof. unfold upd. now rewrite Nat.eqb_refl. Qed.

Lemma upd_other (A : Type) (f : nat -> A) (k x : nat) (v : A) :
  x <> k -> upd f k v x = f x.
Proof. intros H. unfold upd. apply Nat.eqb_neq in H. now rewrite H. Qed.

Create Rewrite HintDb fs.
#[local] Hint Rewrite disk_opened held_opened log_opened room_opened open_cnt_opened
  removed_opened disk_closed held_closed log_closed open_cnt_closed removed_closed
  room_closed disk_logged held_logged log_logged open_cnt_logged removed_logged
  room_logged disk_written held_written log_written open_cnt_written
  removed_written upd_same : fs.

Ltac fs_simpl :=
  repeat (autorewrite with fs in *;
          cbn [disk open_cnt removed room held cwd log inode pos
               set_disk set_open_cnt set_removed set_room set_held set_log] in * ).

(** *** [dir_remove] path by path *)

Ltac mstep L := erewrite bind_eq by L.

Ltac locked_log :=
  eexists; fs_simpl; split; [reflexivity|]; unfold holds; cbn;
  rewrite ?Nat.eqb_refl; apply scan_log_locked.

Ltac eqb_cases :=
  repeat match goal with
         | |- context [Nat.eqb ?a ?b] => destruct (Nat.eqb_spec a b)
         end; subst; try lia; try congruence.

Lemma holds_sole (l x : inode_ptr) (st : fs) :
  held st = [l] -> holds x st = Nat.eqb x l.
Proof. intros H. unfold holds. rewrite H. cbn. apply orb_false_r. Qed.

Lemma holds_none (x : inode_ptr) (st : fs) : held st = [] -> holds x st = false.
Proof. intros H. unfold holds. now rewrite H. Qed.

Lemma dir_remove_absent (d : dir) (nm : string) (st : fs) :
  held st = [] ->
  found nm (slots (disk st (inode d))) = None ->
  exists st', dir_remove d nm st = Ok (false, st') /\
              well_locked st st' /\ nothing_committed st st'.
Proof.
  intros Hheld Hfound. unfold dir_remove, dir_lock, inode_dir_lock.
  mstep ltac:(apply lock_acquire_eq; now apply holds_none).
  mstep ltac:(apply lookup_eq).
  cbn [disk set_held]. rewrite Hfound.
  unfold dir_remove_done, dir_lock, inode_dir_lock.
  mstep ltac:(apply unlock_if_held_eq).
  unfold bind, ret. eexists. split; [reflexivity|].
  unfold well_locked, nothing_committed. fs_simpl. rewrite Hheld.
  cbn. rewrite Nat.eqb_refl. cbn. repeat split; auto.
  eexists. split; [reflexivity|]. apply scan_log_locked.
Qed.

Lemma valid_dir_iff (st : fs) (d : dir) :
  valid_dir st d = true <->
  1 <= open_cnt st (inode d) /\ is_directory (disk st (inode d)) = true.
Proof.
  unfold valid_dir. rewrite andb_true_iff, Nat.leb_le. reflexivity.
Qed.

(** The entry of a file goes, however many handles the file has. *)
Lemma dir_remove_file (d : dir) (nm : string) (st : fs) (e : dir_entry) (ofs : nat) :
  held st = [] -> valid_dir st d = true ->
  found nm (slots (disk st (inode d))) = Some (e, ofs) ->
  is_directory (disk st (inode_sector e)) = false ->
  exists st',
    dir_remove d nm st = Ok (true, st') /\
    well_locked st st' /\
    slots (disk st' (inode d)) = store (slots (disk st (inode d))) ofs (erased e) /\
    removed st' (inode_sector e) = true /\
    (forall x, open_cnt st' x = open_cnt st x).
Proof.
  intros Hheld Hvalid Hfound Hfile.
  apply valid_dir_iff in Hvalid. destruct Hvalid as [Hopen Hdir].
  destruct (found_some _ _ _ _ Hfound) as (Hnth & Hlt & Huse & Hname & Hfirst).
  assert (Hne : inode_sector e <> inode d) by congruence.
  unfold dir_remove, dir_lock, inode_dir_lock.
  mstep ltac:(apply lock_acquire_eq; now apply holds_none).
  mstep ltac:(apply lookup_eq).
  cbn [disk set_held]. rewrite Hfound.
  mstep ltac:(apply inode_open_eq).
  unfold inode_isdir. unfold bind at 1. unfold gets at 1. fs_simpl. rewrite Hfile.
  unfold dir_remove_erase.
  mstep ltac:(apply inode_write_at_inside; fs_simpl; exact Hlt).
  unfold inode_remove. unfold bind at 1. unfold modify at 1.
  unfold dir_remove_done, dir_lock, inode_dir_lock.
  mstep ltac:(apply unlock_if_held_eq).
  mstep ltac:(apply inode_close_eq; fs_simpl; lia).
  unfold ret. eexists. split; [reflexivity|].
  unfold well_locked. fs_simpl. rewrite Hheld. cbn [filter]. rewrite Nat.eqb_refl.
  cbn [negb]. repeat split.
  - eexists. rewrite <- app_assoc. split; [reflexivity|].
    rewrite forallb_app. unfold holds. fs_simpl. cbn. rewrite Nat.eqb_refl. cbn.
    rewrite scan_log_locked. reflexivity.
  - destruct (_ && _); rewrite ?(upd_other _ _ _ _ _ (not_eq_sym Hne)), upd_same;
      reflexivity.
  - intros x. unfold upd. destruct (Nat.eqb_spec x (inode_sector e)) as [->|_];
      [lia | reflexivity].
Qed.

(** The entry of a directory goes only when the directory is empty and
    nobody else has it open. *)
Lemma dir_remove_directory (d : dir) (nm : string) (st : fs) (e : dir_entry)
    (ofs : nat) :
  held st = [] -> valid_dir st d = true ->
  found nm (slots (disk st (inode d))) = Some (e, ofs) ->
  is_directory (disk st (inode_sector e)) = true ->
  exists st',
    dir_remove d nm st =
    Ok (Nat.eqb (open_cnt st (inode_sector e)) 0
        && only_dots (slots (disk st (inode_sector e))), st') /\
    well_locked st st' /\
    if Nat.eqb (open_cnt st (inode_sector e)) 0
       && only_dots (slots (disk st (inode_sector e)))
    then slots (disk st' (inode d)) = store (slots (disk st (inode d))) ofs (erased e) /\
         removed st' (inode_sector e) = true /\
         (forall x, open_cnt st' x = open_cnt st x)
    else nothing_committed st st'.
Proof.
  intros Hheld Hvalid Hfound Hisdir.
  apply valid_dir_iff in Hvalid. destruct Hvalid as [Hopen Hdir].
  destruct (found_some _ _ _ _ Hfound) as (Hnth & Hlt & Huse & Hname & Hfirst).
  set (s := inode_sector e) in *.
  unfold dir_remove, dir_lock, inode_dir_lock.
  mstep ltac:(apply lock_acquire_eq; now apply holds_none).
  mstep ltac:(apply lookup_eq).
  cbn [disk set_held]. rewrite Hfound. fold s.
  mstep ltac:(apply inode_open_eq).
  unfold inode_isdir. unfold bind at 1. unfold gets at 1. fs_simpl. rewrite Hisdir.
  unfold dir_open, inode_isdir. unfold bind at 1. unfold bind at 1. unfold gets at 1.
  fs_simpl. rewrite Hisdir. unfold ret at 1.
  unfold inode_open_count. unfold bind at 1. unfold gets at 1. fs_simpl.
  destruct (open_cnt st s) as [|c] eqn:Hc; cbn [Nat.ltb Nat.leb Nat.eqb andb].
  - (* nobody else has it open *)
    assert (Hne : s <> inode d) by (intros E; rewrite E in Hc; lia).
    match goal with |- context [bind (dir_empty ?dr) _ ?X] =>
      destruct (dir_empty_eq dr X) as (new & Hempty & Hnew)
    end.
    { cbn [inode]. rewrite (holds_sole (inode d)) by (fs_simpl; now rewrite Hheld).
      now apply Nat.eqb_neq. }
    unfold all_locked in Hnew.
    mstep ltac:(exact Hempty). cbn [inode]. fs_simpl.
    destruct (only_dots (slots (disk st s))) eqn:Hdots.
    + unfold dir_remove_erase.
      mstep ltac:(apply inode_write_at_inside; fs_simpl; exact Hlt).
      unfold inode_remove. unfold bind at 1. unfold modify at 1.
      unfold dir_remove_done, dir_lock, inode_dir_lock, dir_close.
      mstep ltac:(apply unlock_if_held_eq).
      mstep ltac:(apply inode_close_eq; fs_simpl; rewrite Hc; lia).
      unfold ret. eexists. split; [reflexivity|].
      unfold well_locked. fs_simpl. rewrite Hheld, Hc. cbn [filter].
      rewrite Nat.eqb_refl. cbn [negb Nat.sub Nat.eqb andb]. repeat split.
      * eexists. rewrite <- !app_assoc. split; [reflexivity|].
        rewrite !forallb_app. unfold holds. fs_simpl. cbn. rewrite Nat.eqb_refl. cbn.
        rewrite scan_log_locked. cbn. now rewrite Hnew.
      * rewrite (upd_other _ _ _ _ _ (not_eq_sym Hne)), upd_same. reflexivity.
      * intros x. unfold upd. destruct (Nat.eqb_spec x s) as [->|_];
          [lia | reflexivity].
    + unfold dir_remove_done, dir_lock, inode_dir_lock, dir_close.
      mstep ltac:(apply unlock_if_held_eq).
      mstep ltac:(apply inode_close_eq; fs_simpl; rewrite Hc; lia).
      unfold ret. eexists. split; [reflexivity|].
      unfold well_locked, nothing_committed. fs_simpl. rewrite Hheld, Hc. cbn [filter].
      rewrite Nat.eqb_refl. cbn [negb Nat.sub Nat.eqb andb]. rewrite !upd_same.
      repeat split.
      * eexists. rewrite <- !app_assoc. split; [reflexivity|].
        rewrite !forallb_app. unfold holds. fs_simpl. cbn. rewrite Nat.eqb_refl. cbn.
        rewrite scan_log_locked. cbn. now rewrite Hnew.
      * intros x. unfold upd. destruct (Nat.eqb_spec x s) as [->|_];
          [lia | reflexivity].
      * intros x. unfold upd. destruct (Nat.eqb_spec x s) as [->|_];
          [discriminate | auto].
  - (* somebody else has it open *)
    unfold dir_remove_done, dir_lock, inode_dir_lock, dir_close.
    mstep ltac:(apply unlock_if_held_eq).
    mstep ltac:(apply inode_close_eq; fs_simpl; rewrite Hc; lia).
    unfold ret. eexists. split; [reflexivity|].
    unfold well_locked, nothing_committed. fs_simpl. rewrite Hheld, Hc. cbn [filter].
    rewrite Nat.eqb_refl. cbn [negb Nat.sub Nat.eqb andb]. repeat split.
    + eexists. split; [reflexivity|].
      unfold holds. fs_simpl. cbn. rewrite Nat.eqb_refl. cbn. apply scan_log_locked.
    + intros x. unfold upd. destruct (Nat.eqb_spec x s) as [->|_];
        [lia | reflexivity].
    + auto.
Qed.

(** *** [dir_lookup], [dir_add] and [dir_readdir] *)

Lemma dir_lookup_eq (d : dir) (nm : string) (st : fs) :
  dir_lookup d nm st =
  Ok (target nm (slots (disk st (inode d))),
      let st1 := logged (scan_log (inode d) (holds (inode d) st) (named nm)
                           (slots (disk st (inode d))) 0) st in
      match target nm (slots (disk st (inode d))) with
      | Some s => opened s st1
      | None => st1
      end).
Proof.
  unfold dir_lookup, target. mstep ltac:(apply lookup_eq).
  destruct (found nm (slots (disk st (inode d)))) as [[e ofs]|]; reflexivity.
Qed.


Lemma inode_write_at_eq (i : inode_ptr) (e : dir_entry) (ofs : nat) (st : fs) :
  inode_write_at i e ofs st =
  let st1 := logged [{| acc_write := true; acc_inode := i; acc_slot := ofs;
                        acc_locked := holds i st |}] st in
  if S ofs - List.length (slots (disk st i)) <=? room st
  then Ok (true, written i ofs e st1)
  else Ok (false, st1).
Proof.
  unfold inode_write_at, note, inode_dir_lock, written, logged. run_monad.
  destruct (match List.length (slots (disk st i)) with
            | 0 => S ofs
            | S l => ofs - l
            end <=? room st); reflexivity.
Qed.

Lemma dir_add_run (P : Params) (d : dir) (nm : string) (sec : block_sector_t)
    (st : fs) :
  held st = [] ->
  let es := slots (disk st (inode d)) in
  let ok := negb (is_empty nm) && (String.length nm <=? NAME_MAX)
            && is_none' (found nm es)
            && (S (free_slot es) - List.length es <=? room st) in
  exists st',
    dir_add d nm sec st = Ok (ok, st') /\
    well_locked st st' /\
    if ok
    then slots (disk st' (inode d)) =
         store es (free_slot es) {| inode_sector := sec; name := nm; in_use := true |} /\
         (forall x, x <> inode d -> disk st' x = disk st x) /\
         (forall x, open_cnt st' x = open_cnt st x) /\
         (forall x, removed st' x = removed st x)
    else nothing_committed st st'.
Proof.
  intros Hheld es ok. subst es ok. unfold dir_add.
  destruct (is_empty nm) eqn:Hemp; cbn [negb andb orb].
  { exists st. unfold ret, well_locked, nothing_committed. repeat split; auto.
    exists []. rewrite app_nil_r. auto. }
  rewrite Nat.ltb_antisym.
  destruct (String.length nm <=? NAME_MAX) eqn:Hlen; cbn [negb andb].
  2:{ exists st. unfold ret, well_locked, nothing_committed. repeat split; auto.
      exists []. rewrite app_nil_r. auto. }
  apply Nat.leb_le in Hlen.
  unfold dir_lock, inode_dir_lock.
  mstep ltac:(apply lock_acquire_eq; now apply holds_none).
  mstep ltac:(apply lookup_eq).
  cbn [disk set_held]. rewrite Hheld.
  destruct (found nm (slots (disk st (inode d)))) as [[e ofs]|] eqn:Hfound;
    cbn [is_none' andb].
  - unfold ret at 1. unfold bind at 1.
    mstep ltac:(apply unlock_if_held_eq).
    unfold ret. eexists. split; [reflexivity|].
    unfold well_locked, nothing_committed. fs_simpl. cbn [filter].
    rewrite Nat.eqb_refl. cbn [negb]. repeat split; auto.
    eexists. split; [reflexivity|]. unfold holds. cbn. rewrite Nat.eqb_refl.
    apply scan_log_locked.
  - unfold bind at 1.
    mstep ltac:(apply scan_entries_eq).
    rewrite inode_write_at_eq.
    cbn zeta. fs_simpl. cbn [skipn snd]. fold (free_slot (slots (disk st (inode d)))).
    rewrite (strlcpy_short nm NAME_MAX Hlen).
    destruct (_ <=? room st).
    + mstep ltac:(apply unlock_if_held_eq).
      unfold ret. eexists. split; [reflexivity|].
      unfold well_locked. fs_simpl. cbn [filter]. rewrite Nat.eqb_refl. cbn [negb].
      repeat split; auto.
      * eexists. rewrite <- !app_assoc. split; [reflexivity|].
        rewrite !forallb_app. unfold holds. fs_simpl. cbn. rewrite Nat.eqb_refl.
        cbn. rewrite !scan_log_locked. reflexivity.
      * intros x Hx. now apply upd_other.
    + mstep ltac:(apply unlock_if_held_eq).
      unfold ret. eexists. split; [reflexivity|].
      unfold well_locked, nothing_committed. fs_simpl. cbn [filter].
      rewrite Nat.eqb_refl. cbn [negb]. repeat split; auto.
      eexists. rewrite <- !app_assoc. split; [reflexivity|].
      rewrite !forallb_app. unfold holds. fs_simpl. cbn. rewrite Nat.eqb_refl.
      cbn. rewrite !scan_log_locked. reflexivity.
Qed.

Lemma dir_readdir_run (P : Params) (d : dir) (st : fs) :
  held st = [] ->
  exists st',
    dir_readdir d st =
    Ok (match find_slot in_use (skipn (pos d) (slots (disk st (inode d)))) (pos d) with
        | (Some e, ofs) => (Some (strlcpy (name e) (NAME_MAX + 1)),
                            {| inode := inode d; pos := S ofs |})
        | (None, ofs) => (None, {| inode := inode d; pos := ofs |})
        end, st') /\
    well_locked st st' /\ nothing_committed st st'.
Proof.
  intros Hheld. unfold dir_readdir, dir_lock, inode_dir_lock.
  mstep ltac:(apply lock_acquire_eq; now apply holds_none).
  mstep ltac:(apply scan_entries_eq).
  mstep ltac:(apply lock_release_eq; unfold holds; fs_simpl; cbn;
              now rewrite Nat.eqb_refl).
  fs_simpl. rewrite Hheld. cbn [filter]. rewrite Nat.eqb_refl. cbn [negb].
  eexists. split.
  - destruct (find_slot in_use _ (pos d)) as [[e|] k]; reflexivity.
  - unfold well_locked, nothing_committed. fs_simpl. repeat split; auto.
    eexists. split; [reflexivity|]. unfold holds. cbn. rewrite Nat.eqb_refl.
    apply scan_log_locked.
Qed.

(** *** Entries written over entries *)

Lemma nth_error_store (es : list dir_entry) (k : nat) (e : dir_entry) :
  nth_error (store es k e) k = Some e.
Proof.
  revert es. induction k as [|k IH]; intros [|x es]; cbn; auto.
Qed.

Lemma nth_error_store_other (es : list dir_entry) (k j : nat) (e : dir_entry) :
  j <> k -> j < List.length es -> nth_error (store es k e) j = nth_error es j.
Proof.
  revert es j. induction k as [|k IH]; intros [|x es] [|j] Hne Hlt; cbn in *;
    try lia; auto.
  apply IH; lia.
Qed.

Lemma store_store (es : list dir_entry) (k : nat) (e e' : dir_entry) :
  store (store es k e) k e' = store es k e'.
Proof.
  revert es. induction k as [|k IH]; intros [|x es]; cbn; auto;
    now rewrite IH.
Qed.

Lemma find_store_new (stop : dir_entry -> bool) (es : list dir_entry)
    (k j : nat) (e : dir_entry) :
  forallb (fun x => negb (stop x)) es = true -> stop blank = false ->
  stop e = true ->
  find_slot stop (store es k e) j = (Some e, j + k).
Proof.
  intros Hes Hb He. revert es j Hes.
  induction k as [|k IH]; intros [|x es] j Hes; cbn in *.
  - rewrite He. f_equal. lia.
  - rewrite He. f_equal. lia.
  - rewrite Hb, (IH [] (S j) eq_refl). f_equal. lia.
  - apply andb_true_iff in Hes. destruct Hes as [Hx Hes].
    apply negb_true_iff in Hx. rewrite Hx, (IH es (S j) Hes). f_equal. lia.
Qed.

Lemma forallb_store (ok : dir_entry -> bool) (es : list dir_entry) (k : nat)
    (e : dir_entry) :
  forallb ok es = true -> ok blank = true -> ok e = true ->
  forallb ok (store es k e) = true.
Proof.
  intros Hes Hb He. revert es Hes.
  induction k as [|k IH]; intros [|x es] Hes; cbn in *.
  - now rewrite He.
  - apply andb_true_iff in Hes. destruct Hes as [_ Hes]. now rewrite He, Hes.
  - now rewrite Hb, (IH [] eq_refl).
  - apply andb_true_iff in Hes. destruct Hes as [Hx Hes]. now rewrite Hx, (IH es Hes).
Qed.

Lemma named_new (nm : string) (sec : block_sector_t) :
  named nm {| inode_sector := sec; name := nm; in_use := true |} = true.
Proof. unfold named, streq. cbn. apply String.eqb_refl. Qed.

(** What [dir_remove] left behind when it returned true. *)
Lemma dir_remove_true (d : dir) (nm : string) (st st' : fs) (e : dir_entry)
    (ofs : nat) :
  held st = [] -> valid_dir st d = true ->
  found nm (slots (disk st (inode d))) = Some (e, ofs) ->
  dir_remove d nm st = Ok (true, st') ->
  slots (disk st' (inode d)) = store (slots (disk st (inode d))) ofs (erased e).
Proof.
  intros Hheld Hvalid Hfound Hrun.
  destruct (is_directory (disk st (inode_sector e))) eqn:Hd.
  - destruct (dir_remove_directory d nm st e ofs Hheld Hvalid Hfound Hd)
      as (s1 & E & _ & Hpost).
    match type of E with _ = Ok (?b, _) => remember b as ok eqn:Eok end.
    rewrite E in Hrun. injection Hrun as -> <-.
    now destruct Hpost.
  - destruct (dir_remove_file d nm st e ofs Hheld Hvalid Hfound Hd)
      as (s1 & E & _ & Hslots & _).
    rewrite E in Hrun. now injection Hrun as <-.
Qed.

(** *** Walking a path *)

#[local] Arguments opened : simpl never.
#[local] Arguments closed : simpl never.
#[local] Arguments logged : simpl never.
#[local] Arguments written : simpl never.

Lemma well_locked_trans (st st1 st2 : fs) :
  well_locked st st1 -> well_locked st1 st2 -> well_locked st st2.
Proof.
  intros [_ (n1 & L1 & A1)] [H2 (n2 & L2 & A2)]. split; [exact H2|].
  exists (n1 ++ n2). rewrite L2, L1, <- app_assoc, forallb_app, A1, A2. auto.
Qed.


Lemma open_dirs_fail_some (d : dir) (st : fs) :
  1 <= open_cnt st (inode d) ->
  open_dirs_fail (Some d) st =
  Ok (None, closed (inode d)
              (set_held (filter (fun x => negb (Nat.eqb x (inode d))) (held st)) st)).
Proof.
  intros H. unfold open_dirs_fail, dir_close, dir_lock, inode_dir_lock.
  mstep ltac:(apply unlock_if_held_eq).
  mstep ltac:(apply inode_close_eq; fs_simpl; exact H).
  reflexivity.
Qed.

(** One component: the step never faults, takes its lock only around the
    lookup, and hands on an open directory or nothing. *)
Lemma descend_run (P : Params) (d : dir) (filepath : string) (n : nat) (st : fs) :
  held st = [] -> 1 <= open_cnt st (inode d) ->
  exists r st',
    descend d filepath n st = Ok (r, st') /\
    well_locked st st' /\
    (forall d', r = Some d' -> 1 <= open_cnt st' (inode d')) /\
    (NAME_MAX < n -> r = None).
Proof.
  intros Hheld Hopen. unfold descend.
  destruct (NAME_MAX <? n) eqn:Hlen.
  - rewrite (open_dirs_fail_some d st Hopen). rewrite Hheld. cbn [filter].
    eexists _, _. split; [reflexivity|]. repeat split; try discriminate.
    + now fs_simpl.
    + exists []. fs_simpl. now rewrite app_nil_r.
  - apply Nat.ltb_ge in Hlen. unfold dir_lock, inode_dir_lock.
    mstep ltac:(apply lock_acquire_eq; now apply holds_none).
    mstep ltac:(apply dir_lookup_eq).
    cbv zeta. fs_simpl. rewrite Hheld.
    destruct (target _ (slots (disk st (inode d)))) as [c|].
    + mstep ltac:(apply lock_release_eq; unfold holds; fs_simpl; cbn;
                  now rewrite Nat.eqb_refl).
      unfold dir_close.
      mstep ltac:(apply inode_close_eq; fs_simpl; unfold upd; eqb_cases).
      unfold dir_open, inode_isdir. unfold bind at 1. unfold bind at 1.
      unfold gets at 1.
      match goal with |- context [is_directory ?x] => destruct (is_directory x) end.
      * unfold ret. cbn. eexists _, _. split; [reflexivity|].
        fs_simpl. cbn [filter]. rewrite Nat.eqb_refl. cbn [negb].
        split; [|split].
        -- split; [now fs_simpl | locked_log].
        -- intros d' Hd'. injection Hd' as <-. cbn [inode]. fs_simpl.
           unfold upd. eqb_cases.
        -- lia.
      * mstep ltac:(apply inode_close_eq; fs_simpl; unfold upd; eqb_cases).
        unfold open_dirs_fail, dir_close, ret, bind. eexists _, _.
        split; [reflexivity|]. fs_simpl. cbn [filter]. rewrite Nat.eqb_refl.
        cbn [negb]. split; [|split].
        -- split; [now fs_simpl | locked_log].
        -- discriminate.
        -- reflexivity.
    + rewrite open_dirs_fail_some by (fs_simpl; exact Hopen).
      fs_simpl. cbn [filter]. rewrite Nat.eqb_refl. cbn [negb].
      eexists _, _. split; [reflexivity|]. split; [|split].
      * split; [now fs_simpl | locked_log].
      * discriminate.
      * reflexivity.
Qed.

Lemma is_empty_false (z : string) : z <> EmptyString -> is_empty z = false.
Proof. destruct z; [congruence | reflexivity]. Qed.

Lemma descend_prefix (P : Params) (d : dir) (pre w : string) :
  descend d (String.append pre w) (String.length pre) =
  descend d pre (String.length pre).
Proof.
  unfold descend. rewrite strlcpy_prefix, (strlcpy_short pre) by lia.
  reflexivity.
Qed.

(** The loop on a path without a slash, on a path whose first slash is its
    last character, and on a path with more behind the first slash. *)
Lemma traverse_last (P : Params) (fuel : nat) (d : dir) (fp : string) (st : fs) :
  strchr fp "/" = None -> traverse (S fuel) d fp st = Ok (Some d, st).
Proof. intros H. cbn [traverse]. now rewrite H. Qed.

Lemma traverse_trailing (P : Params) (fuel : nat) (d : dir) (pre : string) (st : fs) :
  strchr pre "/" = None ->
  traverse (S fuel) d (String.append pre (String "/" EmptyString)) st =
  open_dirs_fail (Some d) st.
Proof. intros H. cbn [traverse]. now rewrite (strchr_app pre _ H). Qed.

Lemma traverse_step (P : Params) (fuel : nat) (d : dir) (pre z : string) (st : fs) :
  strchr pre "/" = None -> z <> EmptyString ->
  traverse (S fuel) d (String.append pre (String "/" z)) st =
  if is_empty pre
  then traverse fuel d z st
  else bind (descend d pre (String.length pre))
            (fun next => match next with
                         | None => ret None
                         | Some d' => traverse fuel d' z
                         end) st.
Proof.
  intros Hpre Hz. cbn [traverse]. rewrite (strchr_app pre z Hpre). cbn [tail].
  rewrite (is_empty_false z Hz), length_append. cbn [String.length].
  destruct pre as [|a pre]; cbn [is_empty String.append String.length tail].
  - rewrite Nat.eqb_refl. reflexivity.
  - destruct (Nat.eqb_spec (S (String.length z))
                (S (String.length pre) + S (String.length z))) as [E|_]; [lia|].
    replace (S (String.length pre) + S (String.length z) - S (String.length z))
      with (S (String.length pre)) by lia.
    pose proof (descend_prefix P d (String a pre) (String "/" z)) as E.
    cbn [String.append String.length] in E. now rewrite E.
Qed.


(** More turns than the path has characters change nothing. *)
Lemma traverse_fuel (P : Params) (f1 f2 : nat) (d : dir) (fp : string) (st : fs) :
  String.length fp < f1 -> String.length fp < f2 ->
  traverse f1 d fp st = traverse f2 d fp st.
Proof.
  revert f2 d fp st. induction f1 as [|f1 IH]; intros f2 d fp st H1 H2; [lia|].
  destruct f2 as [|f2]; [lia|].
  destruct (split_slash fp) as [Hnone | (pre & z & -> & Hpre)].
  - now rewrite !traverse_last.
  - rewrite length_append in H1, H2. cbn [String.length] in H1, H2.
    destruct z as [|a z].
    + now rewrite !traverse_trailing.
    + rewrite !traverse_step by (auto; discriminate).
      destruct (is_empty pre).
      * apply IH; lia.
      * unfold bind. destruct (descend d pre (String.length pre) st) as [[[d'|] st1]|];
          try reflexivity.
        apply IH; lia.
Qed.

(** A slash at the front of a longer path is skipped. *)
Lemma traverse_skip (P : Params) (fuel : nat) (d : dir) (z : string) (st : fs) :
  z <> EmptyString ->
  traverse (S fuel) d (String "/" z) st = traverse fuel d z st.
Proof.
  intros Hz.
  exact (traverse_step P fuel d EmptyString z st eq_refl Hz).
Qed.

(** A doubled slash in front of more path reads as a single one. *)
Lemma traverse_collapse (P : Params) (f1 f2 : nat) (d : dir) (x y : string)
    (st : fs) :
  y <> EmptyString ->
  String.length (String.append x (String "/" (String "/" y))) < f1 ->
  String.length (String.append x (String "/" y)) < f2 ->
  traverse f1 d (String.append x (String "/" (String "/" y))) st =
  traverse f2 d (String.append x (String "/" y)) st.
Proof.
  intros Hy. revert f2 d x st.
  induction f1 as [|f1 IH]; intros f2 d x st H1 H2; [lia|].
  destruct f2 as [|f2]; [lia|].
  rewrite length_append in H1, H2. cbn [String.length] in H1, H2.
  destruct (split_slash x) as [Hnone | (pre & x2 & -> & Hpre)].
  - rewrite !traverse_step by (auto; discriminate).
    destruct f1 as [|f1]; [lia|].
    destruct (is_empty x).
    + rewrite traverse_skip by exact Hy. apply traverse_fuel; lia.
    + unfold bind. destruct (descend d x (String.length x) st) as [[[d'|] st1]|];
        try reflexivity.
      rewrite traverse_skip by exact Hy. apply traverse_fuel; lia.
  - rewrite !append_assoc. cbn [String.append].
    rewrite !length_append in H1, H2. cbn [String.length] in H1, H2.
    rewrite !traverse_step; auto.
    + destruct (is_empty pre).
      * apply IH; rewrite length_append; cbn [String.length]; lia.
      * unfold bind. destruct (descend d pre (String.length pre) st)
          as [[[d'|] st1]|]; try reflexivity.
        apply IH; rewrite length_append; cbn [String.length]; lia.
    + destruct x2; discriminate.
    + destruct x2; discriminate.
Qed.

Lemma append_not_empty (a b : string) :
  b <> EmptyString -> String.append a b <> EmptyString.
Proof. destruct a; cbn; [auto | discriminate]. Qed.

(** A path that ends in a slash leaves the loop through [fail:]. *)
Lemma traverse_trailing_none (P : Params) (fuel : nat) (d : dir) (w : string)
    (st : fs) :
  String.length (String.append w (String "/" EmptyString)) < fuel ->
  held st = [] -> 1 <= open_cnt st (inode d) ->
  exists st',
    traverse fuel d (String.append w (String "/" EmptyString)) st = Ok (None, st') /\
    well_locked st st'.
Proof.
  revert d w st. induction fuel as [|fuel IH]; intros d w st Hf Hheld Hopen; [lia|].
  destruct (split_slash w) as [Hnone | (pre & z & -> & Hpre)].
  - rewrite (traverse_trailing P fuel d w st Hnone).
    rewrite (open_dirs_fail_some d st Hopen). rewrite Hheld. cbn [filter].
    eexists. split; [reflexivity|].
    split; [now fs_simpl|]. exists []. fs_simpl. now rewrite app_nil_r.
  - rewrite append_assoc in *. cbn [String.append] in *.
    rewrite length_append in Hf. cbn [String.length] in Hf.
    rewrite (traverse_step P fuel d pre _ st Hpre)
      by (apply append_not_empty; discriminate).
    destruct (is_empty pre).
    + apply IH; auto. lia.
    + destruct (descend_run P d pre (String.length pre) st Hheld Hopen)
        as (r & st1 & E & Hw & Hr & _).
      unfold bind. rewrite E. destruct r as [d'|].
      * destruct (IH d' z st1) as (st2 & E2 & Hw2).
        -- lia.
        -- now destruct Hw.
        -- now apply Hr.
        -- exists st2. split; [exact E2|]. eapply well_locked_trans; eassumption.
      * exists st1. split; [reflexivity | exact Hw].
Qed.

Lemma slash_free_iff (p : string) : slash_free p = true <-> strchr p "/" = None.
Proof. unfold slash_free. destruct (strchr p "/"); cbn; split; congruence. Qed.

(** A component that is too long, with a slash behind it, leaves the loop
    through [fail:], wherever it stands in the path. *)
Lemma traverse_long_none (P : Params) (comps : list string) (c y : string) :
  forallb slash_free comps = true -> slash_free c = true ->
  NAME_MAX < String.length c ->
  forall (fuel : nat) (d : dir) (st : fs),
    String.length (String.append (join comps) (String.append c (String "/" y))) < fuel ->
    held st = [] -> 1 <= open_cnt st (inode d) ->
    exists st',
      traverse fuel d (String.append (join comps) (String.append c (String "/" y))) st
      = Ok (None, st') /\
      well_locked st st'.
Proof.
  intros Hcomps Hc Hlong. apply slash_free_iff in Hc.
  assert (Hne : c <> EmptyString) by (destruct c; cbn in Hlong; [lia | discriminate]).
  induction comps as [|p ps IH]; intros fuel d st Hf Hheld Hopen;
    (destruct fuel as [|fuel]; [lia|]); cbn [join String.append] in *.
  - destruct y as [|a y].
    + rewrite (traverse_trailing P fuel d c st Hc).
      rewrite (open_dirs_fail_some d st Hopen). rewrite Hheld. cbn [filter].
      eexists. split; [reflexivity|].
      split; [now fs_simpl|]. exists []. fs_simpl. now rewrite app_nil_r.
    + rewrite (traverse_step P fuel d c (String a y) st Hc) by discriminate.
      rewrite (is_empty_false c Hne).
      destruct (descend_run P d c (String.length c) st Hheld Hopen)
        as (r & st1 & E & Hw & _ & Hr).
      unfold bind. rewrite E, (Hr Hlong). exists st1. split; [reflexivity | exact Hw].
  - apply andb_true_iff in Hcomps. destruct Hcomps as [Hp Hps].
    apply slash_free_iff in Hp. specialize (IH Hps).
    rewrite append_assoc in *. cbn [String.append] in *.
    rewrite length_append in Hf. cbn [String.length] in Hf.
    rewrite (traverse_step P fuel d p _ st Hp)
      by (apply append_not_empty, append_not_empty; discriminate).
    destruct (is_empty p).
    + apply IH; auto. lia.
    + destruct (descend_run P d p (String.length p) st Hheld Hopen)
        as (r & st1 & E & Hw & Hr & _).
      unfold bind. rewrite E. destruct r as [d'|].
      * destruct (IH fuel d' st1) as (st2 & E2 & Hw2).
        -- lia.
        -- now destruct Hw.
        -- now apply Hr.
        -- exists st2. split; [exact E2|]. eapply well_locked_trans; eassumption.
      * exists st1. split; [reflexivity | exact Hw].
Qed.

Lemma start_dir_run (P : Params) (filepath : string) (st : fs) :
  held st = [] ->
  exists r st',
    start_dir filepath st = Ok (r, st') /\
    held st' = [] /\ log st' = log st /\
    (forall d', r = Some d' -> 1 <= open_cnt st' (inode d')).
Proof.
  intros Hheld. unfold start_dir, dir_open_root, dir_reopen, inode_reopen.
  destruct (starts_with_slash filepath).
  - mstep ltac:(apply inode_open_eq).
    unfold dir_open, inode_isdir. unfold bind at 1. unfold gets at 1.
    match goal with |- context [is_directory ?x] => destruct (is_directory x) end.
    + eexists _, _. split; [reflexivity|]. fs_simpl. repeat split; auto.
      intros d' E. injection E as <-. fs_simpl. lia.
    + mstep ltac:(apply inode_close_eq; fs_simpl; lia).
      eexists _, _. split; [reflexivity|]. fs_simpl. repeat split; auto.
      discriminate.
  - unfold bind at 1. unfold gets at 1. unfold bind at 1. unfold bind at 1.
    unfold modify at 1. unfold ret at 1.
    unfold dir_open, inode_isdir. unfold bind at 1. unfold gets at 1.
    match goal with |- context [is_directory ?x] => destruct (is_directory x) end.
    + eexists _, _. split; [reflexivity|]. fs_simpl. repeat split; auto.
      intros d' E. injection E as <-. fs_simpl. lia.
    + mstep ltac:(apply inode_close_eq; fs_simpl; lia).
      eexists _, _. split; [reflexivity|]. fs_simpl. repeat split; auto.
      discriminate.
Qed.

Lemma dir_open_dirs_unfold (P : Params) (filepath : string) (st : fs) :
  dir_open_dirs filepath st =
  bind (start_dir filepath)
       (fun start =>
          let rest := if starts_with_slash filepath then tail filepath else filepath in
          match start with
          | None => open_dirs_fail None
          | Some parent_dir => traverse (S (String.length rest)) parent_dir rest
          end) st.
Proof. reflexivity. Qed.


(** *** The claims on the directory layer *)

Section Claims.
Context {P : Params}.

(** C5: when [dir_add (d, n, s)] has succeeded, [dir_lookup (d, n)] returns
    true with the inode of sector [s] opened (its open count raised by one);
    and once a later [dir_remove (d, n)], on the directory as the add left it,
    has succeeded, [dir_lookup (d, n)] returns false.  That [dir_remove]
    returns, and it succeeds exactly when sector [s] holds no directory, or
    holds one that is not open and has no entry in use other than [.] and
    [..]. *)
Theorem add_lookup_remove (d : dir) (nm : string) (sec : block_sector_t)
    (st st1 : fs) :
  held st = [] ->
  dir_add d nm sec st = Ok (true, st1) ->
  (exists st2, dir_lookup d nm st1 = Ok (Some sec, st2) /\
               open_cnt st2 sec = S (open_cnt st1 sec)) /\
  (forall st2 st3,
      held st2 = [] -> valid_dir st2 d = true ->
      slots (disk st2 (inode d)) = slots (disk st1 (inode d)) ->
      dir_remove d nm st2 = Ok (true, st3) ->
      exists st4, dir_lookup d nm st3 = Ok (None, st4)) /\
  (forall st2,
      held st2 = [] -> valid_dir st2 d = true ->
      slots (disk st2 (inode d)) = slots (disk st1 (inode d)) ->
      let removable :=
        negb (is_directory (disk st2 sec))
        || (Nat.eqb (open_cnt st2 sec) 0 && only_dots (slots (disk st2 sec))) in
      exists st3,
        dir_remove d nm st2 = Ok (removable, st3) /\
        (removable = true -> exists st4, dir_lookup d nm st3 = Ok (None, st4))).
Proof.
  intros Hheld Hadd.
  destruct (dir_add_run P d nm sec st Hheld) as (s1 & E & _ & Hpost).
  cbv zeta in E, Hpost.
  match type of E with _ = Ok (?b, _) => remember b as ok eqn:Eok end.
  rewrite E in Hadd. injection Hadd as -> <-.
  destruct Hpost as (Hslots & _). symmetry in Eok. rename Eok into Hok.
  apply andb_true_iff in Hok. destruct Hok as [Hok _].
  apply andb_true_iff in Hok. destruct Hok as [_ Hnone].
  destruct (found nm (slots (disk st (inode d)))) as [|] eqn:Hfound; [discriminate|].
  apply found_none in Hfound.
  set (enew := {| inode_sector := sec; name := nm; in_use := true |}) in *.
  assert (Hnew : found nm (slots (disk s1 (inode d)))
                 = Some (enew, free_slot (slots (disk st (inode d))))).
  { rewrite Hslots. unfold found.
    rewrite (find_store_new (named nm) _ _ 0 enew Hfound eq_refl (named_new nm sec)).
    reflexivity. }
  assert (Hgone : forall st2 st3,
             held st2 = [] -> valid_dir st2 d = true ->
             slots (disk st2 (inode d)) = slots (disk s1 (inode d)) ->
             dir_remove d nm st2 = Ok (true, st3) ->
             exists st4, dir_lookup d nm st3 = Ok (None, st4)).
  { intros st2 st3 Hheld2 Hvalid2 Hsame Hrm.
    rewrite <- Hsame in Hnew.
    pose proof (dir_remove_true d nm st2 st3 enew _ Hheld2 Hvalid2 Hnew Hrm) as H3.
    rewrite Hsame, Hslots, store_store in H3.
    rewrite dir_lookup_eq. unfold target.
    replace (found nm (slots (disk st3 (inode d)))) with (@None (dir_entry * nat)).
    + eexists. reflexivity.
    + symmetry. apply found_none. rewrite H3.
      apply forallb_store; [exact Hfound | reflexivity | reflexivity]. }
  split; [|split].
  - rewrite dir_lookup_eq. unfold target. rewrite Hnew. cbn [inode_sector enew].
    eexists. split; [reflexivity|]. fs_simpl. reflexivity.
  - exact Hgone.
  - intros st2 Hheld2 Hvalid2 Hsame removable. subst removable.
    pose proof Hnew as Hnew2. rewrite <- Hsame in Hnew2.
    destruct (is_directory (disk st2 sec)) eqn:Hisd; cbn [negb orb].
    + destruct (dir_remove_directory d nm st2 enew _ Hheld2 Hvalid2 Hnew2 Hisd)
        as (st3 & Erm & _).
      cbn [inode_sector enew] in Erm. exists st3. split; [exact Erm|].
      intros Hb. rewrite Hb in Erm. exact (Hgone st2 st3 Hheld2 Hvalid2 Hsame Erm).
    + destruct (dir_remove_file d nm st2 enew _ Hheld2 Hvalid2 Hnew2 Hisd)
        as (st3 & Erm & _).
      exists st3. split; [exact Erm|].
      intros _. exact (Hgone st2 st3 Hheld2 Hvalid2 Hsame Erm).
Qed.

(** C6: for an entry that refers to a directory inode, [dir_remove] returns
    true exactly when the open count it reads after its own [inode_open] is 1
    and the directory holds no entry in use other than [.] and [..].  Then the
    entry, in use before the call, is on the device with its in-use flag
    false and its other fields as they were, and the inode is marked for
    deletion.  Otherwise nothing is committed: the device, the open counts
    and the deletion marks are as before, so the entry stays in use. *)
Theorem dir_remove_directory_entry (d : dir) (nm : string) (st : fs)
    (e : dir_entry) (ofs : nat) :
  held st = [] -> valid_dir st d = true ->
  found nm (slots (disk st (inode d))) = Some (e, ofs) ->
  is_directory (disk st (inode_sector e)) = true ->
  let count_seen := S (open_cnt st (inode_sector e)) in
  let allowed := Nat.eqb count_seen 1
                 && only_dots (slots (disk st (inode_sector e))) in
  exists st',
    dir_remove d nm st = Ok (allowed, st') /\
    if allowed
    then nth_error (slots (disk st (inode d))) ofs = Some e /\
         in_use e = true /\
         nth_error (slots (disk st' (inode d))) ofs
         = Some {| inode_sector := inode_sector e; name := name e;
                   in_use := false |} /\
         removed st' (inode_sector e) = true
    else nothing_committed st st' /\
         nth_error (slots (disk st' (inode d))) ofs = Some e /\
         in_use e = true.
Proof.
  intros Hheld Hvalid Hfound Hd count_seen allowed. subst count_seen allowed.
  destruct (found_some _ _ _ _ Hfound) as (Hnth & _ & Huse & _).
  destruct (dir_remove_directory d nm st e ofs Hheld Hvalid Hfound Hd)
    as (st' & E & _ & Hpost).
  exists st'. cbn [Nat.eqb]. split; [exact E|].
  destruct (_ && _).
  - destruct Hpost as (Hslots & Hrem & _).
    split; [exact Hnth|]. split; [exact Huse|]. split; [|exact Hrem].
    rewrite Hslots. exact (nth_error_store _ ofs (erased e)).
  - split; [exact Hpost|]. destruct Hpost as (Hdisk & _).
    rewrite Hdisk. auto.
Qed.

(** C10: for an entry in use that refers to an inode that is not a
    directory, [dir_remove] returns true whatever the open count of the inode
    is: the entry, in use before the call, is on the device with its in-use
    flag false and its other fields as they were, the inode is marked for
    deletion, and every open count is as before. *)
Theorem dir_remove_file_entry (d : dir) (nm : string) (st : fs)
    (e : dir_entry) (ofs : nat) :
  held st = [] -> valid_dir st d = true ->
  found nm (slots (disk st (inode d))) = Some (e, ofs) ->
  is_directory (disk st (inode_sector e)) = false ->
  exists st',
    dir_remove d nm st = Ok (true, st') /\
    nth_error (slots (disk st (inode d))) ofs = Some e /\
    in_use e = true /\
    nth_error (slots (disk st' (inode d))) ofs
    = Some {| inode_sector := inode_sector e; name := name e; in_use := false |} /\
    removed st' (inode_sector e) = true /\
    (forall x, open_cnt st' x = open_cnt st x).
Proof.
  intros Hheld Hvalid Hfound Hd.
  destruct (found_some _ _ _ _ Hfound) as (Hnth & _ & Huse & _).
  destruct (dir_remove_file d nm st e ofs Hheld Hvalid Hfound Hd)
    as (st' & E & _ & Hslots & Hrem & Hcnt).
  exists st'. split; [exact E|]. split; [exact Hnth|]. split; [exact Huse|].
  split; [|split; [exact Hrem | exact Hcnt]].
  rewrite Hslots. exact (nth_error_store _ ofs (erased e)).
Qed.



(** C7, amended: [dir_open_dirs] reads a doubled slash that has more path
    behind it as a single one, and returns a null pointer for every path that
    ends in a slash, the path ["/"] apart: for that one it returns what
    [dir_open_root] returns. *)
Theorem open_dirs_slashes (st : fs) :
  held st = [] ->
  (forall x y, y <> EmptyString ->
     dir_open_dirs (String.append x (String "/" (String "/" y))) st =
     dir_open_dirs (String.append x (String "/" y)) st) /\
  (forall w, w <> EmptyString ->
     exists st', dir_open_dirs (String.append w (String "/" EmptyString)) st
                 = Ok (None, st')) /\
  dir_open_dirs (String "/" EmptyString) st = dir_open_root st.
Proof.
  intros Hheld. split; [|split].
  - intros x y Hy. rewrite !dir_open_dirs_unfold. unfold bind.
    assert (Es : starts_with_slash (String.append x (String "/" (String "/" y)))
                 = starts_with_slash (String.append x (String "/" y)))
      by (destruct x; reflexivity).
    unfold start_dir. rewrite Es.
    match goal with |- match ?m st with _ => _ end = _ =>
      destruct (m st) as [[[d|] st1]|]; try reflexivity end.
    cbv zeta. destruct x as [|a x]; cbn [String.append starts_with_slash].
    + rewrite Ascii.eqb_refl. cbn [tail String.length].
      rewrite traverse_skip by exact Hy. reflexivity.
    + destruct (Ascii.eqb a "/"); cbn [tail].
      * apply traverse_collapse; auto.
      * exact (traverse_collapse P _ _ d (String a x) y st1 Hy
                 (Nat.lt_succ_diag_r _) (Nat.lt_succ_diag_r _)).
  - intros w Hw. rewrite dir_open_dirs_unfold.
    destruct (start_dir_run P (String.append w (String "/" EmptyString)) st Hheld)
      as (r & st1 & E & Hh & Hl & Hr).
    unfold bind. rewrite E. cbv zeta. destruct r as [d|]; [|eexists; reflexivity].
    destruct w as [|a w]; [congruence|]. cbn [String.append starts_with_slash].
    destruct (Ascii.eqb a "/"); cbn [tail].
    + destruct (traverse_trailing_none P (S (String.length
                  (String.append w (String "/" EmptyString)))) d w st1
                  (Nat.lt_succ_diag_r _) Hh (Hr d eq_refl)) as (st2 & E2 & _).
      exists st2. exact E2.
    + destruct (traverse_trailing_none P _ d (String a w) st1
                  (Nat.lt_succ_diag_r _) Hh (Hr d eq_refl)) as (st2 & E2 & _).
      exists st2. exact E2.
  - rewrite dir_open_dirs_unfold. unfold bind, start_dir.
    cbn [starts_with_slash]. rewrite Ascii.eqb_refl.
    destruct (dir_open_root st) as [[[d|] st1]|]; reflexivity.
Qed.

(** C8, amended: when a component that is followed by a slash (any component
    but the last) is longer than [NAME_MAX], [dir_open_dirs] returns a null
    pointer.  The last component is not looked at. *)
Theorem open_dirs_long_component (comps : list string) (c y : string) (st : fs) :
  forallb slash_free comps = true -> slash_free c = true ->
  NAME_MAX < String.length c ->
  held st = [] ->
  exists st',
    dir_open_dirs (String.append (join comps) (String.append c (String "/" y))) st
    = Ok (None, st').
Proof.
  intros Hcomps Hc Hlong Hheld. rewrite dir_open_dirs_unfold.
  set (fp := String.append (join comps) (String.append c (String "/" y))).
  destruct (start_dir_run P fp st Hheld) as (r & st1 & E & Hh & Hl & Hr).
  unfold bind. rewrite E. cbv zeta. destruct r as [d|]; [|eexists; reflexivity].
  assert (Hfront : forall p : string, slash_free p = true -> p <> EmptyString ->
                   forall q, starts_with_slash (String.append p q) = false).
  { intros [|a p] Hp Hne q; [congruence|]. cbn. unfold slash_free in Hp. cbn in Hp.
    destruct (Ascii.eqb a "/"); [discriminate | reflexivity]. }
  assert (Hne : c <> EmptyString) by (destruct c; cbn in Hlong; [lia | discriminate]).
  destruct comps as [|p ps].
  - subst fp. cbn [join String.append]. rewrite (Hfront c Hc Hne).
    destruct (traverse_long_none P [] c y eq_refl Hc Hlong _ d st1
                (Nat.lt_succ_diag_r _) Hh (Hr d eq_refl)) as (st2 & E2 & _).
    exists st2. exact E2.
  - pose proof Hcomps as Hcomps'. cbn [forallb] in Hcomps'.
    apply andb_true_iff in Hcomps'. destruct Hcomps' as [Hp Hps].
    destruct p as [|a p].
    + subst fp. cbn [join String.append starts_with_slash].
      rewrite Ascii.eqb_refl. cbn [tail].
      destruct (traverse_long_none P ps c y Hps Hc Hlong _ d st1
                  (Nat.lt_succ_diag_r _) Hh (Hr d eq_refl)) as (st2 & E2 & _).
      exists st2. exact E2.
    + assert (Hs : starts_with_slash fp = false).
      { subst fp. cbn [join]. rewrite append_assoc.
        apply Hfront; [exact Hp | discriminate]. }
      rewrite Hs.
      destruct (traverse_long_none P (String a p :: ps) c y Hcomps Hc Hlong _ d st1
                  (Nat.lt_succ_diag_r _) Hh (Hr d eq_refl)) as (st2 & E2 & _).
      exists st2. exact E2.
Qed.

End Claims.

(** *** The operations on the small file system *)

Lemma demo_add_ok :
  @dir_add pintos root_dir "x" 42 demo_fs = Ok (true, demo_added).
Proof. vm_compute. reflexivity. Qed.

Lemma demo_found_a :
  found "a" (slots (disk demo_fs (inode root_dir))) = Some (entry 5 "a", 2).
Proof. vm_compute. reflexivity. Qed.

Lemma demo_found_f :
  found "f" (slots (disk demo_fs (inode root_dir))) = Some (entry 9 "f", 3).
Proof. vm_compute. reflexivity. Qed.


Lemma demo_looked_ok :
  dir_lookup root_dir "x" demo_added = Ok (Some 42, demo_looked) /\
  held demo_looked = [] /\ valid_dir demo_looked root_dir = true /\
  slots (disk demo_looked (inode root_dir)) = slots (disk demo_added (inode root_dir)) /\
  negb (is_directory (disk demo_looked 42))
  || (Nat.eqb (open_cnt demo_looked 42) 0 && only_dots (slots (disk demo_looked 42)))
  = true.
Proof. repeat apply conj; vm_compute; reflexivity. Qed.

(** The whole round trip on the small file system: add, lookup, remove,
    lookup. *)
Lemma add_lookup_remove_witness :
  held demo_fs = [] /\
  @dir_add pintos root_dir "x" 42 demo_fs = Ok (true, demo_added) /\
  (exists st2, dir_lookup root_dir "x" demo_added = Ok (Some 42, st2) /\
               open_cnt st2 42 = S (open_cnt demo_added 42)) /\
  dir_lookup root_dir "x" demo_added = Ok (Some 42, demo_looked) /\
  exists st3 st4,
    dir_remove root_dir "x" demo_looked = Ok (true, st3) /\
    dir_lookup root_dir "x" st3 = Ok (None, st4).
Proof.
  split; [reflexivity|]. split; [exact demo_add_ok|].
  destruct (@add_lookup_remove pintos root_dir "x" 42 demo_fs demo_added
              eq_refl demo_add_ok) as (Hlook & _ & Hremove).
  split; [exact Hlook|].
  destruct demo_looked_ok as (Hl & Hheld & Hvalid & Hsame & Hb).
  split; [exact Hl|].
  destruct (Hremove demo_looked Hheld Hvalid Hsame) as (st3 & E & Hnone).
  cbv zeta in E, Hnone. rewrite Hb in E.
  destruct (Hnone Hb) as (st4 & E4).
  exists st3, st4. split; [exact E | exact E4].
Defined.

Lemma demo_found_b :
  found "b" (slots (disk demo_fs_a (inode a_dir))) = Some (entry 6 "b", 2).
Proof. vm_compute. reflexivity. Qed.

(** On the small file system [dir_remove] refuses the directory [a], which
    holds [b], and removes the empty directory [b] from [a]. *)
Lemma dir_remove_directory_entry_witness :
  held demo_fs = [] /\ valid_dir demo_fs root_dir = true /\
  (exists st', dir_remove root_dir "a" demo_fs = Ok (false, st') /\
               nothing_committed demo_fs st') /\
  held demo_fs_a = [] /\ valid_dir demo_fs_a a_dir = true /\
  (exists st', dir_remove a_dir "b" demo_fs_a = Ok (true, st') /\
               nth_error (slots (disk st' (inode a_dir))) 2
               = Some {| inode_sector := 6; name := "b"; in_use := false |} /\
               removed st' 6 = true).
Proof.
  split; [reflexivity|]. split; [reflexivity|]. split.
  - destruct (dir_remove_directory_entry root_dir "a" demo_fs (entry 5 "a") 2
                eq_refl eq_refl demo_found_a eq_refl) as (st' & E & Hpost).
    exists st'. split; [exact E | exact (proj1 Hpost)].
  - split; [reflexivity|]. split; [reflexivity|].
    destruct (dir_remove_directory_entry a_dir "b" demo_fs_a (entry 6 "b") 2
                eq_refl eq_refl demo_found_b eq_refl)
      as (st' & E & _ & _ & Hslot & Hrem).
    exists st'. split; [exact E|]. split; [exact Hslot | exact Hrem].
Defined.

Lemma dir_remove_file_entry_witness :
  held demo_fs = [] /\ valid_dir demo_fs root_dir = true /\
  open_cnt demo_fs 9 = 2 /\
  exists st', dir_remove root_dir "f" demo_fs = Ok (true, st') /\
              nth_error (slots (disk st' (inode root_dir))) 3
              = Some {| inode_sector := 9; name := "f"; in_use := false |} /\
              removed st' 9 = true /\ open_cnt st' 9 = 2.
Proof.
  split; [reflexivity|]. split; [reflexivity|]. split; [reflexivity|].
  destruct (dir_remove_file_entry root_dir "f" demo_fs (entry 9 "f") 3
              eq_refl eq_refl demo_found_f eq_refl)
    as (st' & E & _ & _ & Hslot & Hrem & Hcnt).
  exists st'. split; [exact E|]. split; [exact Hslot|].
  split; [exact Hrem | exact (Hcnt 9)].
Defined.



(** C7 as stated fails: the path ["/"] ends in a slash and [dir_open_dirs]
    returns the root directory for it. *)
Lemma root_path_is_accepted :
  ~ (forall (w : string) (st : fs),
        held st = [] ->
        exists st', @dir_open_dirs pintos (String.append w "/") st = Ok (None, st')).
Proof.
  intros H. destruct (H ""%string demo_fs eq_refl) as [st' E].
  vm_compute in E. discriminate E.
Qed.

Lemma open_dirs_slashes_witness :
  held demo_fs = [] /\
  @dir_open_dirs pintos "/a//b/c" demo_fs = @dir_open_dirs pintos "/a/b/c" demo_fs /\
  exists st', @dir_open_dirs pintos "/a/b/" demo_fs = Ok (None, st').
Proof.
  split; [reflexivity|].
  destruct (@open_dirs_slashes pintos demo_fs eq_refl) as (Hcollapse & Htrail & _).
  split.
  - exact (Hcollapse "/a"%string "b/c"%string ltac:(discriminate)).
  - exact (Htrail "/a/b"%string ltac:(discriminate)).
Defined.

(** C8 as stated fails: a last component longer than [NAME_MAX] is not
    looked at, and [dir_open_dirs] returns the parent directory. *)
Lemma long_last_component_is_accepted :
  ~ (forall (comps : list string) (c rest : string) (st : fs),
        forallb slash_free comps = true -> slash_free c = true ->
        @NAME_MAX pintos < String.length c ->
        is_empty rest || starts_with_slash rest = true ->
        held st = [] ->
        exists st',
          @dir_open_dirs pintos
            (String.append (join comps) (String.append c rest)) st
          = Ok (None, st')).
Proof.
  intros H.
  destruct (H [""%string] long_name ""%string demo_fs eq_refl eq_refl
              (le_n 15) eq_refl eq_refl) as [st' E].
  vm_compute in E. discriminate E.
Qed.

Lemma open_dirs_long_component_witness :
  forallb slash_free [""%string] = true /\ slash_free long_name = true /\
  @NAME_MAX pintos < String.length long_name /\ held demo_fs = [] /\
  exists st', @dir_open_dirs pintos (String.append "/" (String.append long_name "/b"))
                demo_fs = Ok (None, st').
Proof.
  split; [reflexivity|]. split; [reflexivity|]. split; [exact (le_n 15)|].
  split; [reflexivity|].
  exact (@open_dirs_long_component pintos [""%string] long_name "b" demo_fs
           eq_refl eq_refl (le_n 15) eq_refl).
Defined.

(** *** Further properties of the directory layer *)

Lemma strrchr_none (s : string) : strchr s "/" = None -> strrchr s "/" = None.
Proof.
  induction s as [|a s IH]; cbn; [reflexivity|].
  destruct (Ascii.eqb a "/"); [discriminate|]. intros H. now rewrite IH.
Qed.

Lemma strrchr_app (x n : string) :
  strchr n "/" = None ->
  strrchr (String.append x (String "/" n)) "/" = Some (String "/" n).
Proof.
  intros H. induction x as [|a x IH]; cbn [String.append strrchr].
  - now rewrite (strrchr_none n H), Ascii.eqb_refl.
  - now rewrite IH.
Qed.

Lemma strrchr_split (s : string) :
  match strrchr s "/" with
  | None => strchr s "/" = None
  | Some t => exists pre n, s = String.append pre (String "/" n) /\
                            t = String "/" n /\ strchr n "/" = None
  end.
Proof.
  induction s as [|a s IH]; cbn [strrchr strchr]; [reflexivity|].
  destruct (strrchr s "/") as [t|].
  - destruct IH as (pre & n & -> & -> & Hn). exists (String a pre), n. auto.
  - destruct (Ascii.eqb_spec a "/") as [->|_]; [|exact IH].
    exists EmptyString, s. auto.
Qed.

Lemma strchr_app_any (pre n : string) :
  is_none' (strchr (String.append pre (String "/" n)) "/") = false.
Proof.
  induction pre as [|a pre IH]; cbn [String.append strchr].
  - now rewrite Ascii.eqb_refl.
  - now destruct (Ascii.eqb a "/").
Qed.

(** The loop of [dir_open_dirs] never looks at what follows the last slash. *)
Lemma traverse_ignores_last (P : Params) (n1 n2 : string) :
  strchr n1 "/" = None -> strchr n2 "/" = None ->
  n1 <> EmptyString -> n2 <> EmptyString ->
  forall (f1 f2 : nat) (d : dir) (x : string) (st : fs),
    String.length (String.append x (String "/" n1)) < f1 ->
    String.length (String.append x (String "/" n2)) < f2 ->
    traverse f1 d (String.append x (String "/" n1)) st =
    traverse f2 d (String.append x (String "/" n2)) st.
Proof.
  intros H1 H2 Hn1 Hn2.
  induction f1 as [|f1 IH]; intros f2 d x st L1 L2; [lia|].
  destruct f2 as [|f2]; [lia|].
  rewrite length_append in L1, L2. cbn [String.length] in L1, L2.
  destruct (split_slash x) as [Hnone | (pre & x2 & -> & Hpre)].
  - rewrite !traverse_step by auto.
    destruct f1 as [|f1]; [lia|]. destruct f2 as [|f2]; [lia|].
    destruct (is_empty x).
    + now rewrite !traverse_last.
    + unfold bind. destruct (descend d x (String.length x) st) as [[[d'|] st1]|];
        try reflexivity.
      now rewrite !traverse_last.
  - rewrite !append_assoc. cbn [String.append].
    rewrite !length_append in L1, L2. cbn [String.length] in L1, L2.
    rewrite !traverse_step; auto; try (now apply append_not_empty).
    destruct (is_empty pre).
    + apply IH; rewrite length_append; cbn [String.length]; lia.
    + unfold bind. destruct (descend d pre (String.length pre) st)
        as [[[d'|] st1]|]; try reflexivity.
      apply IH; rewrite length_append; cbn [String.length]; lia.
Qed.

Section Further.
Context {P : Params}.

(** [dir_parse_filename] returns a name without a slash: the whole path
    when the path has no slash, and otherwise what follows a slash of the
    path, so that the path is a directory part, that slash and the name. *)
Theorem parse_filename_split (filepath : string) :
  slash_free (dir_parse_filename filepath) = true /\
  if slash_free filepath
  then dir_parse_filename filepath = filepath
  else exists x,
      filepath = String.append x (String "/" (dir_parse_filename filepath)).
Proof.
  unfold dir_parse_filename, slash_free.
  pose proof (strrchr_split filepath) as H.
  destruct (strrchr filepath "/") as [t|].
  - destruct H as (pre & n & E & -> & Hn). cbn [tail]. rewrite Hn. split; [reflexivity|].
    subst filepath. rewrite (strchr_app_any pre n). now exists pre.
  - rewrite H. cbn [is_none']. auto.
Qed.

(** After any directory part and a slash, [dir_parse_filename] returns the
    name that follows, whatever it is, as long as it holds no slash. *)
Theorem parse_filename_last (x n : string) :
  slash_free n = true ->
  dir_parse_filename (String.append x (String "/" n)) = n.
Proof.
  intros H. apply slash_free_iff in H. unfold dir_parse_filename.
  now rewrite (strrchr_app x n H).
Qed.

(** [dir_open_dirs] opens the directory that holds the file: the name after
    the last slash plays no part in what it does or returns. *)
Theorem open_dirs_ignores_filename (x n1 n2 : string) (st : fs) :
  slash_free n1 = true -> slash_free n2 = true ->
  n1 <> EmptyString -> n2 <> EmptyString ->
  dir_open_dirs (String.append x (String "/" n1)) st =
  dir_open_dirs (String.append x (String "/" n2)) st.
Proof.
  intros H1 H2 Hn1 Hn2. apply slash_free_iff in H1, H2.
  rewrite !dir_open_dirs_unfold. unfold bind.
  assert (Es : starts_with_slash (String.append x (String "/" n1))
               = starts_with_slash (String.append x (String "/" n2)))
    by (destruct x; reflexivity).
  unfold start_dir. rewrite Es.
  match goal with |- match ?m st with _ => _ end = _ =>
    destruct (m st) as [[[d|] st1]|]; try reflexivity end.
  cbv zeta. destruct x as [|a x]; cbn [String.append starts_with_slash].
  - rewrite Ascii.eqb_refl. cbn [tail]. now rewrite !traverse_last.
  - destruct (Ascii.eqb a "/"); cbn [tail].
    + apply traverse_ignores_last; auto.
    + exact (traverse_ignores_last P n1 n2 H1 H2 Hn1 Hn2 _ _ d (String a x) st1
               (Nat.lt_succ_diag_r _) (Nat.lt_succ_diag_r _)).
Qed.

(** **** Handles opened and closed on the way down a path *)

Ltac count_handles :=
  intros; unfold handle_on; cbn [inode]; fs_simpl; unfold upd; eqb_cases.

Lemma descend_counts (d : dir) (filepath : string) (n : nat) (st : fs) :
  held st = [] -> 1 <= open_cnt st (inode d) ->
  exists r st',
    descend d filepath n st = Ok (r, st') /\
    held st' = [] /\
    (forall d', r = Some d' -> 1 <= open_cnt st' (inode d')) /\
    (forall x, open_cnt st' x + handle_on (Some d) x = open_cnt st x + handle_on r x).
Proof.
  intros Hheld Hopen. unfold descend.
  destruct (NAME_MAX <? n) eqn:Hlen.
  - rewrite (open_dirs_fail_some d st Hopen). rewrite Hheld. cbn [filter].
    eexists _, _. split; [reflexivity|]. split; [now fs_simpl|].
    split; [discriminate | count_handles].
  - unfold dir_lock, inode_dir_lock.
    mstep ltac:(apply lock_acquire_eq; now apply holds_none).
    mstep ltac:(apply dir_lookup_eq).
    cbv zeta. fs_simpl. rewrite Hheld.
    destruct (target _ (slots (disk st (inode d)))) as [c|].
    + mstep ltac:(apply lock_release_eq; unfold holds; fs_simpl; cbn;
                  now rewrite Nat.eqb_refl).
      unfold dir_close.
      mstep ltac:(apply inode_close_eq; fs_simpl; unfold upd; eqb_cases).
      unfold dir_open, inode_isdir. unfold bind at 1. unfold bind at 1.
      unfold gets at 1.
      match goal with |- context [is_directory ?x] => destruct (is_directory x) end.
      * unfold ret. cbn. eexists _, _. split; [reflexivity|].
        fs_simpl. cbn [filter]. rewrite Nat.eqb_refl. cbn [negb].
        split; [reflexivity|]. split.
        -- intros d' Hd'. injection Hd' as <-. cbn [inode]. fs_simpl.
           unfold upd. eqb_cases.
        -- count_handles.
      * mstep ltac:(apply inode_close_eq; fs_simpl; unfold upd; eqb_cases).
        unfold open_dirs_fail, dir_close, ret, bind. eexists _, _.
        split; [reflexivity|]. fs_simpl. cbn [filter]. rewrite Nat.eqb_refl.
        cbn [negb]. split; [reflexivity|]. split; [discriminate | count_handles].
    + rewrite open_dirs_fail_some by (fs_simpl; exact Hopen).
      fs_simpl. cbn [filter]. rewrite Nat.eqb_refl. cbn [negb].
      eexists _, _. split; [reflexivity|]. split; [now fs_simpl|].
      split; [discriminate | count_handles].
Qed.

Lemma traverse_counts (fuel : nat) (d : dir) (fp : string) (st : fs) :
  String.length fp < fuel ->
  held st = [] -> 1 <= open_cnt st (inode d) ->
  exists r st',
    traverse fuel d fp st = Ok (r, st') /\
    (forall x, open_cnt st' x + handle_on (Some d) x = open_cnt st x + handle_on r x).
Proof.
  revert d fp st. induction fuel as [|fuel IH]; intros d fp st Hf Hheld Hopen; [lia|].
  destruct (split_slash fp) as [Hnone | (pre & z & -> & Hpre)].
  - rewrite (traverse_last P fuel d fp st Hnone). exists (Some d), st.
    split; [reflexivity | auto].
  - rewrite length_append in Hf. cbn [String.length] in Hf.
    destruct z as [|a z].
    + rewrite (traverse_trailing P fuel d pre st Hpre).
      rewrite (open_dirs_fail_some d st Hopen). rewrite Hheld. cbn [filter].
      eexists _, _. split; [reflexivity | count_handles].
    + rewrite (traverse_step P fuel d pre (String a z) st Hpre) by discriminate.
      destruct (is_empty pre).
      * apply IH; auto. lia.
      * destruct (descend_counts d pre (String.length pre) st Hheld Hopen)
          as (r & st1 & E & Hh & Hr & Hc).
        unfold bind. rewrite E. destruct r as [d'|].
        -- destruct (IH d' (String a z) st1) as (r2 & st2 & E2 & Hc2);
             [lia | exact Hh | now apply Hr |].
           exists r2, st2. split; [exact E2|]. intros x.
           specialize (Hc x). specialize (Hc2 x). lia.
        -- exists None, st1. split; [reflexivity | exact Hc].
Qed.

Lemma start_dir_counts (filepath : string) (st : fs) :
  exists r st',
    start_dir filepath st = Ok (r, st') /\
    held st' = held st /\
    (forall d', r = Some d' -> 1 <= open_cnt st' (inode d')) /\
    (forall x, open_cnt st' x = open_cnt st x + handle_on r x).
Proof.
  unfold start_dir, dir_open_root, dir_reopen, inode_reopen.
  destruct (starts_with_slash filepath).
  - mstep ltac:(apply inode_open_eq).
    unfold dir_open, inode_isdir. unfold bind at 1. unfold gets at 1.
    match goal with |- context [is_directory ?x] => destruct (is_directory x) end.
    + eexists _, _. split; [reflexivity|]. fs_simpl. split; [reflexivity|]. split.
      * intros d' E. injection E as <-. fs_simpl. lia.
      * count_handles.
    + mstep ltac:(apply inode_close_eq; fs_simpl; lia).
      eexists _, _. split; [reflexivity|]. fs_simpl. split; [reflexivity|].
      split; [discriminate | count_handles].
  - unfold bind at 1. unfold gets at 1. unfold bind at 1. unfold bind at 1.
    unfold modify at 1. unfold ret at 1.
    unfold dir_open, inode_isdir. unfold bind at 1. unfold gets at 1.
    match goal with |- context [is_directory ?x] => destruct (is_directory x) end.
    + eexists _, _. split; [reflexivity|]. fs_simpl. split; [reflexivity|]. split.
      * intros d' E. injection E as <-. fs_simpl. lia.
      * count_handles.
    + mstep ltac:(apply inode_close_eq; fs_simpl; lia).
      eexists _, _. split; [reflexivity|]. fs_simpl. split; [reflexivity|].
      split; [discriminate | count_handles].
Qed.

(** [dir_open_dirs] leaks no handle and closes none of its caller's: when it
    returns a null pointer every inode is open as often as before the call,
    and when it returns a directory only that directory's inode is open once
    more.  The handles on the directories on the way are closed again. *)
Theorem open_dirs_handles (filepath : string) (st : fs) :
  held st = [] ->
  exists r st',
    dir_open_dirs filepath st = Ok (r, st') /\
    forall x, open_cnt st' x = open_cnt st x + handle_on r x.
Proof.
  intros Hheld. rewrite dir_open_dirs_unfold.
  destruct (start_dir_counts filepath st) as (r & st1 & E & Hh & Hr & Hc).
  unfold bind. rewrite E. cbv zeta. rewrite Hheld in Hh.
  destruct r as [d|].
  - destruct (traverse_counts (S (String.length
                 (if starts_with_slash filepath then tail filepath else filepath)))
                d _ st1 (Nat.lt_succ_diag_r _) Hh (Hr d eq_refl))
      as (r2 & st2 & E2 & Hc2).
    exists r2, st2. split; [exact E2|]. intros x.
    specialize (Hc x). specialize (Hc2 x). lia.
  - exists None, st1. split; [reflexivity | exact Hc].
Qed.

(** **** Entries added and removed *)

Lemma free_slot_cases (es : list dir_entry) :
  (free_slot es = List.length es /\ forallb in_use es = true) \/
  (free_slot es < List.length es /\ forallb in_use es = false /\
   exists e, nth_error es (free_slot es) = Some e /\ in_use e = false).
Proof.
  unfold free_slot.
  destruct (find_slot (fun e => negb (in_use e)) es 0) as [[e|] ofs] eqn:E; cbn [snd].
  - right. apply find_slot_some in E. destruct E as (_ & Hn & He & _).
    rewrite Nat.sub_0_r in Hn. apply negb_true_iff in He.
    split; [apply nth_error_Some; congruence|]. split; [|now exists e].
    destruct (forallb in_use es) eqn:Hall; [|reflexivity].
    rewrite forallb_forall in Hall.
    rewrite (Hall e (nth_error_In es ofs Hn)) in He. discriminate.
  - left. apply find_slot_end in E. destruct E as (-> & Hall). split; [reflexivity|].
    rewrite <- Hall. apply forallb_pointwise. intros x. now rewrite negb_involutive.
Qed.

Lemma nth_error_store_le (es : list dir_entry) (k j : nat) (e : dir_entry) :
  k <= List.length es ->
  nth_error (store es k e) j = if Nat.eqb j k then Some e else nth_error es j.
Proof.
  revert k j. induction es as [|x r IH]; intros k j Hk.
  - cbn in Hk. assert (k = 0) by lia. subst k.
    destruct j as [|[|j]]; reflexivity.
  - destruct k as [|k]; destruct j as [|j]; cbn; try reflexivity.
    apply IH. cbn in Hk. lia.
Qed.

Lemma length_store (es : list dir_entry) (k : nat) (e : dir_entry) :
  List.length (store es k e) = Nat.max (List.length es) (S k).
Proof.
  revert k. induction es as [|x r IH]; intros k.
  - induction k as [|k IHk]; cbn [store List.length]; [reflexivity|].
    rewrite IHk. cbn. reflexivity.
  - destruct k as [|k]; cbn [store List.length]; [lia|]. rewrite IH. lia.
Qed.

(** Writing an entry the loop does not stop at over another such entry, or
    at the end of the file, does not change where the loop stops. *)
Lemma find_slot_store (stop : dir_entry -> bool) (es : list dir_entry)
    (k j : nat) (e : dir_entry) :
  k <= List.length es -> stop e = false ->
  (forall x, nth_error es k = Some x -> stop x = false) ->
  match find_slot stop (store es k e) j with
  | (Some a, o) => Some (a, o)
  | (None, _) => None
  end =
  match find_slot stop es j with
  | (Some a, o) => Some (a, o)
  | (None, _) => None
  end.
Proof.
  revert k j. induction es as [|x r IH]; intros k j Hk He Hx.
  - cbn in Hk. assert (k = 0) by lia. subst k. cbn. now rewrite He.
  - destruct k as [|k]; cbn [store find_slot].
    + rewrite He, (Hx x eq_refl). reflexivity.
    + destruct (stop x); [reflexivity|]. apply IH; auto. cbn in Hk. lia.
Qed.

Lemma target_store (m : string) (es : list dir_entry) (k : nat) (e : dir_entry) :
  k <= List.length es -> named m e = false ->
  (forall x, nth_error es k = Some x -> named m x = false) ->
  target m (store es k e) = target m es.
Proof.
  intros Hk He Hx. unfold target, found.
  now rewrite (find_slot_store (named m) es k 0 e Hk He Hx).
Qed.

Lemma target_none (nm : string) (es : list dir_entry) :
  target nm es = None <-> found nm es = None.
Proof. unfold target. destruct (found nm es) as [[e o]|]; split; congruence. Qed.

Lemma named_other (m nm : string) (e : dir_entry) :
  m <> nm -> name e = nm -> named m e = false.
Proof.
  intros Hne <-. unfold named, streq. apply andb_false_iff. right.
  now apply String.eqb_neq.
Qed.

(** What a returning [dir_remove] leaves of the directory's entries. *)
Lemma dir_remove_slots (d : dir) (nm : string) (st st' : fs) (b : bool) :
  held st = [] -> valid_dir st d = true ->
  dir_remove d nm st = Ok (b, st') ->
  slots (disk st' (inode d)) = slots (disk st (inode d)) \/
  exists e ofs, found nm (slots (disk st (inode d))) = Some (e, ofs) /\
                slots (disk st' (inode d))
                = store (slots (disk st (inode d))) ofs (erased e).
Proof.
  intros Hheld Hvalid Hrm.
  destruct (found nm (slots (disk st (inode d)))) as [[e ofs]|] eqn:Hfound.
  - destruct (is_directory (disk st (inode_sector e))) eqn:Hisd.
    + destruct (dir_remove_directory d nm st e ofs Hheld Hvalid Hfound Hisd)
        as (st1 & E & _ & Hpost).
      rewrite E in Hrm. injection Hrm as _ <-.
      destruct (_ && _).
      * right. exists e, ofs. split; [reflexivity | apply Hpost].
      * left. destruct Hpost as (Hd & _). now rewrite Hd.
    + destruct (dir_remove_file d nm st e ofs Hheld Hvalid Hfound Hisd)
        as (st1 & E & _ & Hs & _).
      rewrite E in Hrm. injection Hrm as _ <-.
      right. exists e, ofs. split; [reflexivity | exact Hs].
  - destruct (dir_remove_absent d nm st Hheld Hfound) as (st1 & E & _ & Hd & _).
    rewrite E in Hrm. injection Hrm as _ <-. left. now rewrite Hd.
Qed.

(** What a returning [dir_add] leaves of the directory's entries. *)
Lemma dir_add_outcome (d : dir) (nm : string) (sec : block_sector_t)
    (st st' : fs) (b : bool) :
  held st = [] ->
  dir_add d nm sec st = Ok (b, st') ->
  if b
  then slots (disk st' (inode d)) =
       store (slots (disk st (inode d))) (free_slot (slots (disk st (inode d))))
         {| inode_sector := sec; name := nm; in_use := true |} /\
       found nm (slots (disk st (inode d))) = None /\
       (forall x, x <> inode d -> disk st' x = disk st x)
  else nothing_committed st st'.
Proof.
  intros Hheld Hadd.
  pose proof (dir_add_run P d nm sec st Hheld) as H. cbv zeta in H.
  match type of H with
  | exists _, _ = Ok (?o, _) /\ _ => remember o as ok eqn:Eok
  end.
  destruct H as (st1 & E & _ & Hpost).
  rewrite E in Hadd. injection Hadd as <- <-.
  destruct ok; [|exact Hpost].
  destruct Hpost as (Hs & Hd & _). split; [exact Hs|]. split; [|exact Hd].
  symmetry in Eok. apply andb_true_iff in Eok. destruct Eok as (Eok & _).
  apply andb_true_iff in Eok. destruct Eok as (_ & Hf).
  now destruct (found nm (slots (disk st (inode d)))).
Qed.

(** [dir_add] returns, and returns true exactly when the name is not empty
    and no longer than [NAME_MAX], no entry in use carries it, and there is
    a slot for it: one not in use, or room on the device for the directory to
    grow by an entry.  When it returns false it has committed nothing. *)
Theorem dir_add_succeeds_iff (d : dir) (nm : string) (sec : block_sector_t) (st : fs) :
  held st = [] ->
  exists b st',
    dir_add d nm sec st = Ok (b, st') /\
    (b = true <->
     nm <> EmptyString /\ String.length nm <= NAME_MAX /\
     target nm (slots (disk st (inode d))) = None /\
     (forallb in_use (slots (disk st (inode d))) = true -> 1 <= room st)) /\
    (b = false -> nothing_committed st st').
Proof.
  intros Hheld.
  destruct (dir_add_run P d nm sec st Hheld) as (st' & E & _ & Hpost).
  eexists _, st'. split; [exact E|]. split.
  - rewrite !andb_true_iff, negb_true_iff, Nat.leb_le, Nat.leb_le, target_none.
    assert (H1 : is_empty nm = false <-> nm <> EmptyString)
      by (destruct nm; cbn; split; congruence).
    assert (H2 : is_none' (found nm (slots (disk st (inode d)))) = true <->
                 found nm (slots (disk st (inode d))) = None)
      by (destruct (found nm _); cbn; split; congruence).
    rewrite H1, H2.
    destruct (free_slot_cases (slots (disk st (inode d))))
      as [(Hk & Hall) | (Hk & Hall & _)]; rewrite Hall.
    + rewrite Hk. intuition lia.
    + intuition (try lia; try discriminate).
  - intros Hb. rewrite Hb in Hpost. exact Hpost.
Qed.

Lemma find_slot_before (stop : dir_entry -> bool) (es : list dir_entry)
    (p j : nat) (e : dir_entry) :
  j < snd (find_slot stop es p) - p -> nth_error es j = Some e -> stop e = false.
Proof.
  revert p j. induction es as [|x r IH]; intros p j Hj Hn.
  - destruct j; discriminate Hn.
  - cbn [find_slot] in Hj. destruct (stop x) eqn:Hx.
    + cbn [snd] in Hj. lia.
    + destruct j as [|j].
      * cbn in Hn. now injection Hn as <-.
      * cbn in Hn. apply (IH (S p) j); [lia | exact Hn].
Qed.

(** A successful [dir_add] writes the new entry, in use and carrying the
    name and the sector, into the first slot not in use: every slot before
    it is in use, the slot itself was not or lies at the end of the file,
    and every other slot is as before.  The directory grows, by one entry,
    only when every slot is in use; the entries in use stay where they are. *)
Theorem dir_add_reuses_slots (d : dir) (nm : string) (sec : block_sector_t)
    (st st' : fs) :
  held st = [] ->
  dir_add d nm sec st = Ok (true, st') ->
  (exists k,
      nth_error (slots (disk st' (inode d))) k
      = Some {| inode_sector := sec; name := nm; in_use := true |} /\
      (forall j e, j < k -> nth_error (slots (disk st (inode d))) j = Some e ->
                   in_use e = true) /\
      k <= List.length (slots (disk st (inode d))) /\
      (forall e, nth_error (slots (disk st (inode d))) k = Some e ->
                 in_use e = false) /\
      (forall j, j <> k -> nth_error (slots (disk st' (inode d))) j
                           = nth_error (slots (disk st (inode d))) j)) /\
  List.length (slots (disk st' (inode d)))
  = List.length (slots (disk st (inode d)))
    + (if forallb in_use (slots (disk st (inode d))) then 1 else 0) /\
  (forall j e, nth_error (slots (disk st (inode d))) j = Some e -> in_use e = true ->
               nth_error (slots (disk st' (inode d))) j = Some e).
Proof.
  intros Hheld Hadd.
  destruct (dir_add_outcome d nm sec st st' true Hheld Hadd) as (Hs & _).
  split.
  { exists (free_slot (slots (disk st (inode d)))).
    assert (Hle : free_slot (slots (disk st (inode d)))
                  <= List.length (slots (disk st (inode d))))
      by (destruct (free_slot_cases (slots (disk st (inode d))))
           as [(Hk & _) | (Hk & _)]; lia).
    rewrite Hs. split; [apply nth_error_store|]. split; [|split; [exact Hle|split]].
    - intros j e Hj Hn. apply negb_false_iff.
      apply (find_slot_before (fun x => negb (in_use x))
               (slots (disk st (inode d))) 0 j e); [|exact Hn].
      unfold free_slot in Hj. lia.
    - intros e Hn.
      destruct (free_slot_cases (slots (disk st (inode d))))
        as [(Hk & _) | (_ & _ & e0 & Hn0 & He0)].
      + assert (free_slot (slots (disk st (inode d)))
                < List.length (slots (disk st (inode d))))
          by (apply nth_error_Some; congruence).
        lia.
      + congruence.
    - intros j Hj. rewrite nth_error_store_le by exact Hle.
      apply Nat.eqb_neq in Hj. now rewrite Hj. }
  rewrite Hs, length_store.
  destruct (free_slot_cases (slots (disk st (inode d))))
    as [(Hk & Hall) | (Hk & Hall & e0 & Hn0 & He0)]; rewrite Hall.
  - split; [lia|]. intros j e Hj _. rewrite nth_error_store_le by lia.
    destruct (Nat.eqb_spec j (free_slot (slots (disk st (inode d))))) as [->|_];
      [|exact Hj].
    assert (free_slot (slots (disk st (inode d)))
            < List.length (slots (disk st (inode d))))
      by (apply nth_error_Some; congruence).
    lia.
  - split; [lia|]. intros j e Hj He. rewrite nth_error_store_le by lia.
    destruct (Nat.eqb_spec j (free_slot (slots (disk st (inode d))))) as [->|_];
      [|exact Hj].
    congruence.
Qed.

(** [dir_add] changes what no other name resolves to, and touches no other
    directory. *)
Theorem dir_add_keeps_other_names (d : dir) (nm : string) (sec : block_sector_t)
    (st st' : fs) (b : bool) :
  held st = [] ->
  dir_add d nm sec st = Ok (b, st') ->
  (forall m, m <> nm ->
     target m (slots (disk st' (inode d))) = target m (slots (disk st (inode d)))) /\
  (forall x, x <> inode d -> disk st' x = disk st x).
Proof.
  intros Hheld Hadd.
  pose proof (dir_add_outcome d nm sec st st' b Hheld Hadd) as Hpost.
  destruct b.
  - destruct Hpost as (Hs & _ & Hd). split; [|exact Hd].
    intros m Hm. rewrite Hs.
    destruct (free_slot_cases (slots (disk st (inode d))))
      as [(Hk & _) | (Hk & _ & e0 & Hn0 & He0)].
    + apply target_store; [lia | now apply (named_other m nm) |].
      intros x Hx. rewrite Hk in Hx.
      assert (List.length (slots (disk st (inode d)))
              < List.length (slots (disk st (inode d))))
        by (apply nth_error_Some; congruence).
      lia.
    + apply target_store; [lia | now apply (named_other m nm) |].
      intros x Hx. rewrite Hn0 in Hx. injection Hx as <-.
      unfold named. now rewrite He0.
  - destruct Hpost as (Hd & _). split; [|auto]. intros m _. now rewrite Hd.
Qed.

(** [dir_remove] changes what no other name resolves to, and the directory
    keeps its length: the slot is marked, not given back. *)
Theorem dir_remove_keeps_other_names (d : dir) (nm : string) (st st' : fs) (b : bool) :
  held st = [] -> valid_dir st d = true ->
  dir_remove d nm st = Ok (b, st') ->
  (forall m, m <> nm ->
     target m (slots (disk st' (inode d))) = target m (slots (disk st (inode d)))) /\
  List.length (slots (disk st' (inode d))) = List.length (slots (disk st (inode d))).
Proof.
  intros Hheld Hvalid Hrm.
  destruct (dir_remove_slots d nm st st' b Hheld Hvalid Hrm)
    as [-> | (e & ofs & Hfound & ->)]; [auto|].
  apply found_some in Hfound. destruct Hfound as (Hn & Hlt & _ & Hname & _).
  split.
  - intros m Hm. apply target_store; [lia | reflexivity |].
    intros x Hx. rewrite Hn in Hx. injection Hx as <-.
    now apply (named_other m nm).
  - rewrite length_store. lia.
Qed.

(** No two entries in use of a directory carry the same name: neither
    [dir_add] nor [dir_remove] breaks this. *)
Theorem names_stay_unique (d : dir) (st : fs) :
  held st = [] -> valid_dir st d = true ->
  unique_names (slots (disk st (inode d))) ->
  (forall nm sec b st',
      dir_add d nm sec st = Ok (b, st') -> unique_names (slots (disk st' (inode d)))) /\
  (forall nm b st',
      dir_remove d nm st = Ok (b, st') -> unique_names (slots (disk st' (inode d)))).
Proof.
  intros Hheld Hvalid Hu. split.
  - intros nm sec b st' Hadd.
    pose proof (dir_add_outcome d nm sec st st' b Hheld Hadd) as Hpost.
    destruct b.
    + destruct Hpost as (Hs & Hfound & _). rewrite Hs.
      assert (Hfree : free_slot (slots (disk st (inode d)))
                      <= List.length (slots (disk st (inode d))))
        by (destruct (free_slot_cases (slots (disk st (inode d))))
             as [(Hk & _) | (Hk & _)]; lia).
      assert (Hnone : forall j e, nth_error (slots (disk st (inode d))) j = Some e ->
                                  in_use e = true -> name e <> nm).
      { apply found_none in Hfound. rewrite forallb_forall in Hfound.
        intros j e Hj He Hname. specialize (Hfound e (nth_error_In _ _ Hj)).
        unfold named, streq in Hfound. rewrite He, Hname, String.eqb_refl in Hfound.
        discriminate. }
      intros i j e1 e2. rewrite !nth_error_store_le by exact Hfree.
      destruct (Nat.eqb_spec i (free_slot (slots (disk st (inode d))))) as [->|Hi];
        destruct (Nat.eqb_spec j (free_slot (slots (disk st (inode d))))) as [->|Hj];
        intros H1 H2 U1 U2 Hname.
      * reflexivity.
      * injection H1 as <-. cbn [name] in Hname.
        exfalso. apply (Hnone j e2 H2 U2). now symmetry.
      * injection H2 as <-. cbn [name] in Hname.
        exfalso. now apply (Hnone i e1 H1 U1).
      * now apply (Hu i j e1 e2).
    + destruct Hpost as (Hd & _). now rewrite Hd.
  - intros nm b st' Hrm.
    destruct (dir_remove_slots d nm st st' b Hheld Hvalid Hrm)
      as [-> | (e & ofs & Hfound & ->)]; [exact Hu|].
    apply found_some in Hfound. destruct Hfound as (Hn & Hlt & _).
    intros i j e1 e2. rewrite !nth_error_store_le by lia.
    destruct (Nat.eqb_spec i ofs) as [->|Hi].
    { intros H1 _ U1. injection H1 as <-. discriminate U1. }
    destruct (Nat.eqb_spec j ofs) as [->|Hj].
    { intros _ H2 _ U2. injection H2 as <-. discriminate U2. }
    apply Hu.
Qed.

(** A name that no entry in use carries: [dir_lookup] leaves a null pointer
    and [dir_remove] returns false, and neither opens an inode or writes. *)
Theorem absent_name (d : dir) (nm : string) (st : fs) :
  held st = [] ->
  target nm (slots (disk st (inode d))) = None ->
  (exists st', dir_lookup d nm st = Ok (None, st') /\ nothing_committed st st') /\
  (exists st', dir_remove d nm st = Ok (false, st') /\ nothing_committed st st').
Proof.
  intros Hheld Hnone. split.
  - rewrite dir_lookup_eq, Hnone. eexists. split; [reflexivity|].
    unfold nothing_committed. fs_simpl. auto.
  - apply target_none in Hnone.
    destruct (dir_remove_absent d nm st Hheld Hnone) as (st' & E & _ & Hc).
    now exists st'.
Qed.

(** **** Reading a directory, and its handles *)

Lemma find_slot_filter (es : list dir_entry) (p : nat) :
  match find_slot in_use es p with
  | (Some e, ofs) =>
      p <= ofs /\ filter in_use es = e :: filter in_use (skipn (S (ofs - p)) es)
  | (None, _) => filter in_use es = []
  end.
Proof.
  revert p. induction es as [|x r IH]; intros p; cbn [find_slot filter]; [reflexivity|].
  destruct (in_use x) eqn:Hx.
  - split; [lia|]. now rewrite Nat.sub_diag.
  - specialize (IH (S p)). destruct (find_slot in_use r (S p)) as [[e|] ofs]; [|exact IH].
    destruct IH as (Hle & IH). split; [lia|].
    replace (S (ofs - p)) with (S (S (ofs - S p))) by lia. exact IH.
Qed.

(** [dir_readdir] walks the names of the entries in use from the position
    of the handle on: a call returns the first of them and moves the handle
    behind it, and returns false exactly when none is left.  It writes
    nothing. *)
Theorem readdir_lists_entries (d : dir) (st : fs) :
  held st = [] ->
  exists r d' st',
    dir_readdir d st = Ok ((r, d'), st') /\
    nothing_committed st st' /\ inode d' = inode d /\
    listing (pos d) (slots (disk st (inode d))) =
    match r with
    | Some nm => nm :: listing (pos d') (slots (disk st (inode d)))
    | None => []
    end.
Proof.
  intros Hheld. destruct (dir_readdir_run P d st Hheld) as (st' & E & _ & Hc).
  pose proof (find_slot_filter (skipn (pos d) (slots (disk st (inode d)))) (pos d)) as H.
  unfold listing.
  destruct (find_slot in_use (skipn (pos d) (slots (disk st (inode d)))) (pos d))
    as [[e|] ofs].
  - eexists _, _, st'. split; [exact E|]. split; [exact Hc|]. split; [reflexivity|].
    destruct H as (Hle & ->). cbn [map pos]. rewrite skipn_skipn.
    replace (S (ofs - pos d) + pos d) with (S ofs) by lia. reflexivity.
  - eexists _, _, st'. split; [exact E|]. split; [exact Hc|]. split; [reflexivity|].
    now rewrite H.
Qed.

(** [dir_empty] returns, with true exactly for a directory that has no
    entry in use other than [.] and [..], and writes nothing. *)
Theorem dir_empty_only_dots (d : dir) (st : fs) :
  held st = [] ->
  exists st',
    dir_empty d st = Ok (only_dots (slots (disk st (inode d))), st') /\
    nothing_committed st st' /\ held st' = [].
Proof.
  intros Hheld.
  destruct (dir_empty_eq d st (holds_none (inode d) st Hheld)) as (new & E & _).
  eexists. split; [exact E|]. unfold nothing_committed. fs_simpl. auto.
Qed.

(** [dir_open] takes ownership of the inode it is given: for a directory
    the handle it returns carries the inode, placed behind [.] and [..];
    for any other inode it returns a null pointer and has closed the inode. *)
Theorem dir_open_takes_ownership (i : inode_ptr) (st : fs) :
  1 <= open_cnt st i ->
  exists r st',
    dir_open (Some i) st = Ok (r, st') /\
    (forall x, open_cnt st' x + (if Nat.eqb x i then 1 else 0)
               = open_cnt st x + handle_on r x) /\
    if is_directory (disk st i)
    then r = Some {| inode := i; pos := 2 |} /\ st' = st
    else r = None.
Proof.
  intros Hopen. unfold dir_open, inode_isdir. unfold bind at 1. unfold gets at 1.
  destruct (is_directory (disk st i)).
  - eexists _, _. split; [reflexivity|]. split; [|auto]. count_handles.
  - mstep ltac:(apply inode_close_eq; exact Hopen).
    eexists _, _. split; [reflexivity|]. split; [|reflexivity]. count_handles.
Qed.

(** [dir_reopen] gives a second handle on the same inode, and closing that
    handle leaves the device and every open count as they were. *)
Theorem reopen_close_round_trip (d : dir) (st : fs) :
  valid_dir st d = true ->
  exists d' st1 st2,
    dir_reopen d st = Ok (Some d', st1) /\
    dir_get_inode d' = dir_get_inode d /\ pos d' = 2 /\
    open_cnt st1 (inode d) = S (open_cnt st (inode d)) /\
    dir_close (Some d') st1 = Ok (tt, st2) /\
    nothing_committed st st2.
Proof.
  intros Hvalid. apply valid_dir_iff in Hvalid. destruct Hvalid as (Hopen & Hisd).
  unfold dir_reopen, inode_reopen, dir_open, inode_isdir, dir_close, dir_get_inode.
  unfold bind at 1. unfold bind at 1. unfold modify at 1. unfold ret at 1.
  unfold bind at 1. unfold gets at 1. cbn [disk set_open_cnt]. rewrite Hisd.
  eexists _, _, _. split; [reflexivity|]. cbn [inode pos open_cnt set_open_cnt].
  split; [reflexivity|]. split; [reflexivity|].
  split; [now rewrite upd_same|].
  split; [apply inode_close_eq; cbn [open_cnt set_open_cnt]; rewrite upd_same; lia|].
  unfold nothing_committed. fs_simpl. rewrite ?upd_same.
  replace (S (open_cnt st (inode d)) - 1) with (open_cnt st (inode d)) by lia.
  destruct (Nat.eqb_spec (open_cnt st (inode d)) 0) as [E|_]; [lia|].
  cbn [andb]. fs_simpl. repeat split; auto.
  intros x. unfold upd. eqb_cases.
Qed.

End Further.

(** **** The further properties on the small file system *)

Lemma demo_remove_f :
  dir_remove root_dir "f" demo_fs =
  Ok (true, state_after (dir_remove root_dir "f") demo_fs).
Proof. vm_compute. reflexivity. Qed.

Lemma demo_unique : unique_names (slots (disk demo_fs (inode root_dir))).
Proof.
  intros i j e1 e2.
  destruct i as [|[|[|[|i]]]]; destruct j as [|[|[|[|j]]]]; cbn;
    intros H1 H2 _ _ Hn;
    try (destruct i; discriminate H1); try (destruct j; discriminate H2);
    injection H1 as <-; injection H2 as <-;
    try reflexivity; discriminate Hn.
Qed.

Lemma parse_filename_last_witness :
  slash_free "b" = true /\ dir_parse_filename "/a/b" = "b"%string.
Proof.
  split; [reflexivity|]. exact (parse_filename_last "/a" "b" eq_refl).
Defined.

Lemma open_dirs_ignores_filename_witness :
  slash_free "b" = true /\ slash_free "c" = true /\
  @dir_open_dirs pintos "/a/b" demo_fs = @dir_open_dirs pintos "/a/c" demo_fs.
Proof.
  split; [reflexivity|]. split; [reflexivity|].
  apply (@open_dirs_ignores_filename pintos "/a" "b" "c" demo_fs);
    try reflexivity; discriminate.
Defined.

Lemma open_dirs_handles_witness :
  held demo_fs = [] /\
  exists r st',
    @dir_open_dirs pintos "/a/b" demo_fs = Ok (r, st') /\
    forall x, open_cnt st' x = open_cnt demo_fs x + handle_on r x.
Proof.
  split; [reflexivity|]. exact (@open_dirs_handles pintos "/a/b" demo_fs eq_refl).
Defined.

Lemma dir_add_succeeds_iff_witness :
  held demo_fs = [] /\
  exists b st',
    @dir_add pintos root_dir "x" 42 demo_fs = Ok (b, st') /\
    (b = true <->
     "x"%string <> EmptyString /\ String.length "x" <= @NAME_MAX pintos /\
     target "x" (slots (disk demo_fs (inode root_dir))) = None /\
     (forallb in_use (slots (disk demo_fs (inode root_dir))) = true ->
      1 <= room demo_fs)) /\
    (b = false -> nothing_committed demo_fs st').
Proof.
  split; [reflexivity|].
  exact (@dir_add_succeeds_iff pintos root_dir "x" 42 demo_fs eq_refl).
Defined.

Lemma demo_readd_ok :
  held demo_removed = [] /\
  @dir_add pintos root_dir "x" 42 demo_removed = Ok (true, demo_readded) /\
  nth_error (slots (disk demo_removed (inode root_dir))) 3
  = Some {| inode_sector := 9; name := "f"; in_use := false |} /\
  nth_error (slots (disk demo_readded (inode root_dir))) 3
  = Some {| inode_sector := 42; name := "x"; in_use := true |}.
Proof. repeat apply conj; vm_compute; reflexivity. Qed.

(** On the small file system after [f] was removed, the add takes the slot
    that [f] left. *)
Lemma dir_add_reuses_slots_witness :
  held demo_removed = [] /\
  @dir_add pintos root_dir "x" 42 demo_removed = Ok (true, demo_readded) /\
  (exists k,
      nth_error (slots (disk demo_readded (inode root_dir))) k
      = Some {| inode_sector := 42; name := "x"; in_use := true |} /\
      (forall j e, j < k ->
                   nth_error (slots (disk demo_removed (inode root_dir))) j = Some e ->
                   in_use e = true) /\
      k <= List.length (slots (disk demo_removed (inode root_dir))) /\
      (forall e, nth_error (slots (disk demo_removed (inode root_dir))) k = Some e ->
                 in_use e = false) /\
      (forall j, j <> k ->
                 nth_error (slots (disk demo_readded (inode root_dir))) j
                 = nth_error (slots (disk demo_removed (inode root_dir))) j)) /\
  List.length (slots (disk demo_readded (inode root_dir)))
  = List.length (slots (disk demo_removed (inode root_dir)))
    + (if forallb in_use (slots (disk demo_removed (inode root_dir))) then 1 else 0).
Proof.
  destruct demo_readd_ok as (Hheld & Hadd & _).
  split; [exact Hheld|]. split; [exact Hadd|].
  destruct (@dir_add_reuses_slots pintos root_dir "x" 42 demo_removed demo_readded
              Hheld Hadd) as (Hslot & Hlen & _).
  split; [exact Hslot | exact Hlen].
Defined.

Lemma dir_add_keeps_other_names_witness :
  held demo_fs = [] /\
  @dir_add pintos root_dir "x" 42 demo_fs = Ok (true, demo_added) /\
  target "a" (slots (disk demo_added (inode root_dir)))
  = target "a" (slots (disk demo_fs (inode root_dir))).
Proof.
  split; [reflexivity|]. split; [exact demo_add_ok|].
  apply (proj1 (@dir_add_keeps_other_names pintos root_dir "x" 42 demo_fs demo_added
                  true eq_refl demo_add_ok)).
  discriminate.
Defined.

Lemma dir_remove_keeps_other_names_witness :
  held demo_fs = [] /\ valid_dir demo_fs root_dir = true /\
  dir_remove root_dir "f" demo_fs
  = Ok (true, state_after (dir_remove root_dir "f") demo_fs) /\
  target "a" (slots (disk (state_after (dir_remove root_dir "f") demo_fs)
                       (inode root_dir)))
  = target "a" (slots (disk demo_fs (inode root_dir))).
Proof.
  split; [reflexivity|]. split; [reflexivity|]. split; [exact demo_remove_f|].
  apply (proj1 (dir_remove_keeps_other_names root_dir "f" demo_fs _ true
                  eq_refl eq_refl demo_remove_f)).
  discriminate.
Defined.

Lemma names_stay_unique_witness :
  held demo_fs = [] /\ valid_dir demo_fs root_dir = true /\
  unique_names (slots (disk demo_fs (inode root_dir))) /\
  unique_names (slots (disk demo_added (inode root_dir))).
Proof.
  split; [reflexivity|]. split; [reflexivity|]. split; [exact demo_unique|].
  exact (proj1 (@names_stay_unique pintos root_dir demo_fs eq_refl eq_refl demo_unique)
           "x"%string 42 true demo_added demo_add_ok).
Defined.

Lemma absent_name_witness :
  held demo_fs = [] /\
  target "zz" (slots (disk demo_fs (inode root_dir))) = None /\
  exists st', dir_remove root_dir "zz" demo_fs = Ok (false, st') /\
              nothing_committed demo_fs st'.
Proof.
  split; [reflexivity|]. split; [reflexivity|].
  exact (proj2 (absent_name root_dir "zz" demo_fs eq_refl eq_refl)).
Defined.

Lemma readdir_lists_entries_witness :
  held demo_fs = [] /\
  exists r d' st',
    @dir_readdir pintos root_dir demo_fs = Ok ((r, d'), st') /\
    nothing_committed demo_fs st' /\ inode d' = inode root_dir /\
    @listing pintos (pos root_dir) (slots (disk demo_fs (inode root_dir))) =
    match r with
    | Some nm => nm :: @listing pintos (pos d') (slots (disk demo_fs (inode root_dir)))
    | None => []
    end.
Proof.
  split; [reflexivity|]. exact (@readdir_lists_entries pintos root_dir demo_fs eq_refl).
Defined.

Lemma dir_empty_only_dots_witness :
  held demo_fs = [] /\
  exists st',
    dir_empty root_dir demo_fs
    = Ok (only_dots (slots (disk demo_fs (inode root_dir))), st') /\
    nothing_committed demo_fs st' /\ held st' = [].
Proof.
  split; [reflexivity|]. exact (dir_empty_only_dots root_dir demo_fs eq_refl).
Defined.

Lemma dir_open_takes_ownership_witness :
  1 <= open_cnt demo_fs 9 /\
  exists r st',
    dir_open (Some 9) demo_fs = Ok (r, st') /\
    (forall x, open_cnt st' x + (if Nat.eqb x 9 then 1 else 0)
               = open_cnt demo_fs x + handle_on r x) /\
    if is_directory (disk demo_fs 9)
    then r = Some {| inode := 9; pos := 2 |} /\ st' = demo_fs
    else r = None.
Proof.
  split; [exact (le_S 1 1 (le_n 1))|].
  exact (dir_open_takes_ownership 9 demo_fs (le_S 1 1 (le_n 1))).
Defined.

Lemma reopen_close_round_trip_witness :
  valid_dir demo_fs root_dir = true /\
  exists d' st1 st2,
    dir_reopen root_dir demo_fs = Ok (Some d', st1) /\
    dir_get_inode d' = dir_get_inode root_dir /\ pos d' = 2 /\
    open_cnt st1 (inode root_dir) = S (open_cnt demo_fs (inode root_dir)) /\
    dir_close (Some d') st1 = Ok (tt, st2) /\
    nothing_committed demo_fs st2.
Proof.
  split; [reflexivity|]. exact (reopen_close_round_trip root_dir demo_fs eq_refl).
Defined.

End DirProofs.
